(** * AutoBackup (egui): a shallow embedding of [src/src/main.rs]

    Strings are modelled as Stdlib [string] (ASCII); Rust's [char::is_whitespace]
    is restricted to its ASCII members.  Timestamps ([NaiveDateTime]) are
    nanosecond counts in [Z].  The filesystem, the clock and the external
    [7z] tool are oracles passed in explicitly. *)

From Stdlib Require Import String Ascii List ZArith NArith Lia Bool.
From Stdlib Require Import DecimalN.
Import ListNotations.
Open Scope string_scope.
Open Scope Z_scope.

(** ** Rust [str] primitives *)

Module RStr.

(** [char::is_whitespace] on ASCII: space and U+0009..U+000D. *)
Definition is_ws (c : ascii) : bool :=
  let n := nat_of_ascii c in
  (Nat.eqb n 32 || (Nat.leb 9 n && Nat.leb n 13))%bool.

Fixpoint trim_start (s : string) : string :=
  match s with
  | EmptyString => EmptyString
  | String c r => if is_ws c then trim_start r else s
  end.

Fixpoint trim_end (s : string) : string :=
  match s with
  | EmptyString => EmptyString
  | String c r =>
      let r' := trim_end r in
      if (String.eqb r' EmptyString && is_ws c)%bool then EmptyString
      else String c r'
  end.

Definition trim (s : string) : string := trim_end (trim_start s).

Definition is_empty (s : string) : bool := String.eqb s EmptyString.

(** [str::split] with a character predicate: always at least one piece. *)
Fixpoint split_by (p : ascii -> bool) (s : string) : list string :=
  match s with
  | EmptyString => [EmptyString]
  | String c r =>
      let rest := split_by p r in
      if p c then EmptyString :: rest
      else match rest with
           | h :: t => String c h :: t
           | [] => [String c EmptyString]
           end
  end.

(** [str::split_whitespace] = [split(char::is_whitespace)] without empty pieces. *)
Definition split_whitespace (s : string) : list string :=
  filter (fun w => negb (is_empty w)) (split_by is_ws s).

Definition split_comma (s : string) : list string :=
  split_by (fun c => Ascii.eqb c ","%char) s.

Definition lower_char (c : ascii) : ascii :=
  let n := nat_of_ascii c in
  if (Nat.leb 65 n && Nat.leb n 90)%bool then ascii_of_nat (n + 32) else c.

Fixpoint to_ascii_lowercase (s : string) : string :=
  match s with
  | EmptyString => EmptyString
  | String c r => String (lower_char c) (to_ascii_lowercase r)
  end.

Definition eq_ignore_ascii_case (a b : string) : bool :=
  String.eqb (to_ascii_lowercase a) (to_ascii_lowercase b).

(** [str::trim_start_matches] with a string pattern: strips the prefix
    repeatedly; each strip shortens the string, so [length s] rounds suffice. *)
Fixpoint trim_start_matches_aux (fuel : nat) (pat s : string) : string :=
  match fuel with
  | O => s
  | S f =>
      if (negb (is_empty pat) && String.prefix pat s)%bool
      then trim_start_matches_aux f pat (substring (String.length pat) (String.length s) s)
      else s
  end.

Definition trim_start_matches (pat s : string) : string :=
  trim_start_matches_aux (S (String.length s)) pat s.

(** [BufRead::read_line]: up to and including the first newline. *)
Fixpoint read_line (s : string) : string * string :=
  match s with
  | EmptyString => (EmptyString, EmptyString)
  | String c r =>
      if Ascii.eqb c "010"%char then (String c EmptyString, r)
      else let (l, rest) := read_line r in (String c l, rest)
  end.

End RStr.

(** ** Decimal printing and parsing of integers ([Display], [FromStr]) *)

Module Num.
Import Decimal.

Fixpoint string_of_uint (d : uint) : string :=
  match d with
  | Nil => EmptyString
  | D0 d => String "0" (string_of_uint d)
  | D1 d => String "1" (string_of_uint d)
  | D2 d => String "2" (string_of_uint d)
  | D3 d => String "3" (string_of_uint d)
  | D4 d => String "4" (string_of_uint d)
  | D5 d => String "5" (string_of_uint d)
  | D6 d => String "6" (string_of_uint d)
  | D7 d => String "7" (string_of_uint d)
  | D8 d => String "8" (string_of_uint d)
  | D9 d => String "9" (string_of_uint d)
  end.

Fixpoint uint_of_string (s : string) : option uint :=
  match s with
  | EmptyString => Some Nil
  | String c r =>
      match uint_of_string r with
      | None => None
      | Some d =>
          match c with
          | "0"%char => Some (D0 d) | "1"%char => Some (D1 d)
          | "2"%char => Some (D2 d) | "3"%char => Some (D3 d)
          | "4"%char => Some (D4 d) | "5"%char => Some (D5 d)
          | "6"%char => Some (D6 d) | "7"%char => Some (D7 d)
          | "8"%char => Some (D8 d) | "9"%char => Some (D9 d)
          | _ => None
          end
      end
  end.

(** A non-empty run of decimal digits, as a number. *)
Definition digits_value (s : string) : option Z :=
  if RStr.is_empty s then None
  else match uint_of_string s with
       | Some d => Some (Z.of_N (N.of_uint d))
       | None => None
       end.

Definition show_N (n : N) : string := string_of_uint (N.to_uint n).

(** [i32::to_string] *)
Definition show_i32 (n : Z) : string :=
  if n <? 0 then String "-" (show_N (Z.to_N (- n))) else show_N (Z.to_N n).

(** [usize::to_string] *)
Definition show_usize (n : nat) : string := show_N (N.of_nat n).

Definition in_i32 (z : Z) : bool := (- 2 ^ 31 <=? z) && (z <? 2 ^ 31).

(** [str::parse::<i32>]: optional sign, at least one digit, in range. *)
Definition parse_i32 (s : string) : option Z :=
  let v :=
    match s with
    | String "+"%char EmptyString | String "-"%char EmptyString => None
    | String "+"%char r => digits_value r
    | String "-"%char r => option_map Z.opp (digits_value r)
    | _ => digits_value s
    end in
  match v with
  | Some z => if in_i32 z then Some z else None
  | None => None
  end.

(** [str::parse::<usize>] (64-bit): optional [+], digits, in range. *)
Definition parse_usize (s : string) : option nat :=
  let v :=
    match s with
    | String "+"%char EmptyString => None
    | String "+"%char r => digits_value r
    | _ => digits_value s
    end in
  match v with
  | Some z => if z <? 2 ^ 64 then Some (Z.to_nat z) else None
  | None => None
  end.

Definition show_bool (b : bool) : string := if b then "true" else "false".

(** [str::parse::<bool>] *)
Definition parse_bool (s : string) : option bool :=
  if String.eqb s "true" then Some true
  else if String.eqb s "false" then Some false
  else None.

End Num.

(** ** Job model: [struct Schedule] *)

Record Schedule := mkSchedule {
  source_dir : string;
  dest_dir : string;
  period_hours : Z;               (* i32 *)
  skip_file_exts_label : string;  (* like "*.log *.tmp" *)
  skip_folders_label : string;    (* space-separated folder names *)
  use_zip : bool;
  last_time : Z;                  (* NaiveDateTime, in nanoseconds *)
  is_running : bool;
  ghost_id : nat                  (* ghost: identity of the job, not in the source *)
}.

Definition set_running (b : bool) (s : Schedule) : Schedule :=
  mkSchedule s.(source_dir) s.(dest_dir) s.(period_hours) s.(skip_file_exts_label)
    s.(skip_folders_label) s.(use_zip) s.(last_time) b s.(ghost_id).

Definition set_last_time (t : Z) (s : Schedule) : Schedule :=
  mkSchedule s.(source_dir) s.(dest_dir) s.(period_hours) s.(skip_file_exts_label)
    s.(skip_folders_label) s.(use_zip) t s.(is_running) s.(ghost_id).

(** The assignments of [action_edit]: everything but [last_time] and [is_running]. *)
Definition set_config (src dst : string) (p : Z) (exts folders : string) (z : bool)
    (s : Schedule) : Schedule :=
  mkSchedule src dst p exts folders z s.(last_time) s.(is_running) s.(ghost_id).

(** Environment of one controller step: filesystem oracles and the clock. *)
Record Env := mkEnv {
  env_exists : string -> bool;                 (* Path::exists *)
  env_create_dir_all : string -> option string; (* None = Ok, Some e = Err e *)
  env_now : Z;                                 (* Local::now().naive_local() *)
  env_home : option string                     (* dirs_next::home_dir *)
}.

(** [Schedule::new]; [id] is the ghost identity handed out by the state. *)
Definition Schedule_new (env : Env) (id : nat) (src dst : string) (p : Z)
    (exts folders : string) (z : bool) : Schedule :=
  mkSchedule src dst p exts folders z env.(env_now) false id.

(** [Path::join] of a relative component on a Unix path. *)
Definition path_join (base name : string) : string :=
  if RStr.is_empty base then name
  else if String.eqb (substring (String.length base - 1) 1 base) "/" then base ++ name
  else base ++ "/" ++ name.

Definition default_backup_root (env : Env) : string :=
  match env.(env_home) with
  | Some home => path_join home "BackUp"
  | None => "./BackUp"
  end.

(** ** Controller state: [struct AppState]
    The channel [tx]/[rx] lives in the system state of the concurrency
    model below; [last_tick] is the [env] flag of [tick]. [ini_file] is the
    content of [AutoBackup.ini] ([None]: missing). *)

Record AppState := mkAppState {
  schedules : list Schedule;
  selected_index : option nat;
  input_source_dir : string;
  input_dest_dir : string;
  input_period_hours : string;
  input_skip_file_ext : string;
  input_skip_folder : string;
  label_skip_files : string;
  label_skip_folders : string;
  input_use_zip : bool;
  logs : list (Z * string);
  ini_file : option string;
  next_id : nat                     (* ghost: next fresh job identity *)
}.

Definition set_schedules (l : list Schedule) (a : AppState) : AppState :=
  mkAppState l a.(selected_index) a.(input_source_dir) a.(input_dest_dir)
    a.(input_period_hours) a.(input_skip_file_ext) a.(input_skip_folder)
    a.(label_skip_files) a.(label_skip_folders) a.(input_use_zip) a.(logs)
    a.(ini_file) a.(next_id).

Definition set_selected (i : option nat) (a : AppState) : AppState :=
  mkAppState a.(schedules) i a.(input_source_dir) a.(input_dest_dir)
    a.(input_period_hours) a.(input_skip_file_ext) a.(input_skip_folder)
    a.(label_skip_files) a.(label_skip_folders) a.(input_use_zip) a.(logs)
    a.(ini_file) a.(next_id).

Definition set_logs (l : list (Z * string)) (a : AppState) : AppState :=
  mkAppState a.(schedules) a.(selected_index) a.(input_source_dir) a.(input_dest_dir)
    a.(input_period_hours) a.(input_skip_file_ext) a.(input_skip_folder)
    a.(label_skip_files) a.(label_skip_folders) a.(input_use_zip) l
    a.(ini_file) a.(next_id).

Definition set_ini (f : option string) (a : AppState) : AppState :=
  mkAppState a.(schedules) a.(selected_index) a.(input_source_dir) a.(input_dest_dir)
    a.(input_period_hours) a.(input_skip_file_ext) a.(input_skip_folder)
    a.(label_skip_files) a.(label_skip_folders) a.(input_use_zip) a.(logs)
    f a.(next_id).

Definition set_next_id (n : nat) (a : AppState) : AppState :=
  mkAppState a.(schedules) a.(selected_index) a.(input_source_dir) a.(input_dest_dir)
    a.(input_period_hours) a.(input_skip_file_ext) a.(input_skip_folder)
    a.(label_skip_files) a.(label_skip_folders) a.(input_use_zip) a.(logs)
    a.(ini_file) n.

(** Typing into the input widgets of [ui_top] (text fields, skip labels, checkbox). *)
Definition set_inputs (src dst period exts folders : string) (z : bool) (a : AppState)
    : AppState :=
  mkAppState a.(schedules) a.(selected_index) src dst period
    a.(input_skip_file_ext) a.(input_skip_folder) exts folders z a.(logs)
    a.(ini_file) a.(next_id).

(** [AppState::log]: the line is stamped with the current local time. *)
Definition log (env : Env) (msg : string) (a : AppState) : AppState :=
  set_logs (a.(logs) ++ [(env.(env_now), msg)]) a.

(** ** Persistence: [save_data] / [load_data] *)

Definition nl : string := String "010"%char EmptyString.

(** [format!("{},{},...")]: the fields separated by commas. *)
Fixpoint join_comma (l : list string) : string :=
  match l with
  | [] => ""
  | [x] => x
  | x :: r => x ++ "," ++ join_comma r
  end.

Definition render_schedule (s : Schedule) : string :=
  join_comma [s.(source_dir); s.(dest_dir); Num.show_i32 s.(period_hours);
              s.(skip_file_exts_label); s.(skip_folders_label); Num.show_bool s.(use_zip)]
  ++ nl.

Definition render_ini (l : list Schedule) : string :=
  "Count" ++ nl ++ Num.show_usize (length l) ++ nl
  ++ fold_right String.append "" (map render_schedule l).

(** [save_data]: the whole file is rewritten (creation errors are ignored). *)
Definition save_data (a : AppState) : AppState :=
  set_ini (Some (render_ini a.(schedules))) a.

Definition unwrap_or {A} (o : option A) (d : A) : A :=
  match o with Some x => x | None => d end.

(** One record of [load_data]: [None] when it has fewer than 3 fields. *)
Definition parse_record (env : Env) (id : nat) (line : string) : option Schedule :=
  let parts := RStr.split_comma (RStr.trim_end line) in
  if Nat.leb 3 (length parts) then
    let source := nth 0 parts "" in
    let dest := nth 1 parts "" in
    let period := unwrap_or (match nth_error parts 2 with
                             | Some s => Num.parse_i32 s | None => None end) 24 in
    let skip_files := nth 3 parts "" in
    let skip_folders := nth 4 parts "" in
    let zip := unwrap_or (match nth_error parts 5 with
                          | Some s => Num.parse_bool s | None => None end) false in
    Some (Schedule_new env id source dest period skip_files skip_folders zip)
  else None.

Fixpoint load_records (env : Env) (count : nat) (rest : string) (a : AppState)
    : AppState :=
  match count with
  | O => a
  | S k =>
      let (line, rest') := RStr.read_line rest in
      match parse_record env a.(next_id) line with
      | Some s =>
          load_records env k rest'
            (set_next_id (S a.(next_id)) (set_schedules (a.(schedules) ++ [s]) a))
      | None => load_records env k rest' a
      end
  end.

Definition load_data (env : Env) (a : AppState) : AppState :=
  match a.(ini_file) with
  | None => a
  | Some content =>
      let (_title, rest) := RStr.read_line content in
      let (count_line, rest) := RStr.read_line rest in
      let count := unwrap_or (Num.parse_usize (RStr.trim count_line)) 0%nat in
      let a := load_records env count rest a in
      log env ("Loaded " ++ Num.show_usize (length a.(schedules)) ++ " schedule(s)") a
  end.

(** ** Actions of the controller *)

(** The period input of [action_add] / [action_edit]. *)
Definition input_period (a : AppState) : Z :=
  match Num.parse_i32 (RStr.trim a.(input_period_hours)) with
  | Some p => if 1 <=? p then p else 24
  | None => 24
  end.

Definition clear_inputs (env : Env) (a : AppState) : AppState :=
  mkAppState a.(schedules) a.(selected_index) "" (default_backup_root env) "24"
    "" "" "" "" false a.(logs) a.(ini_file) a.(next_id).

(** The trailing shared part of [action_add] and [action_edit]: ensure the
    destination exists.  [None] to go on, [Some a'] to return [a']. *)
Definition ensure_dest (env : Env) (a : AppState) : option AppState :=
  if env.(env_exists) a.(input_dest_dir) then None
  else match env.(env_create_dir_all) a.(input_dest_dir) with
       | None => None
       | Some e => Some (log env ("Failed to create destination: " ++ e) a)
       end.

Definition action_add (env : Env) (a : AppState) : AppState :=
  let period := input_period a in
  if RStr.is_empty (RStr.trim a.(input_source_dir)) then log env "Source folder is empty" a
  else if negb (env.(env_exists) a.(input_source_dir)) then
    log env "Source folder does not exist" a
  else if RStr.is_empty (RStr.trim a.(input_dest_dir)) then
    log env "Destination folder is empty" a
  else match ensure_dest env a with
  | Some a' => a'
  | None =>
      let sched := Schedule_new env a.(next_id) a.(input_source_dir) a.(input_dest_dir)
                     period a.(label_skip_files) a.(label_skip_folders) a.(input_use_zip) in
      let a := set_next_id (S a.(next_id)) (set_schedules (a.(schedules) ++ [sched]) a) in
      let a := set_selected (Some (length a.(schedules) - 1)%nat) a in
      clear_inputs env (save_data a)
  end.

(** [action_edit]; [None] is the panic of [self.schedules[idx]] out of range. *)
Definition action_edit (env : Env) (a : AppState) : option AppState :=
  match a.(selected_index) with
  | None => Some (log env "Select a row to edit" a)
  | Some idx =>
      let period := input_period a in
      if (RStr.is_empty (RStr.trim a.(input_source_dir))
          || negb (env.(env_exists) a.(input_source_dir)))%bool then
        Some (log env "Invalid source folder" a)
      else if RStr.is_empty (RStr.trim a.(input_dest_dir)) then
        Some (log env "Invalid destination folder" a)
      else match ensure_dest env a with
      | Some a' => Some a'
      | None =>
          match nth_error a.(schedules) idx with
          | None => None
          | Some s =>
              let s' := set_config a.(input_source_dir) a.(input_dest_dir) period
                          a.(label_skip_files) a.(label_skip_folders) a.(input_use_zip) s in
              let a := set_schedules (firstn idx a.(schedules) ++ s' :: skipn (S idx) a.(schedules)) a in
              Some (clear_inputs env (save_data a))
          end
      end
  end.

Fixpoint remove_at {A} (i : nat) (l : list A) : list A :=
  match l, i with
  | [], _ => []
  | _ :: t, O => t
  | h :: t, S j => h :: remove_at j t
  end.

Definition action_delete (env : Env) (a : AppState) : AppState :=
  match a.(selected_index) with
  | None => log env "Select a row to delete" a
  | Some idx =>
      if Nat.ltb idx (length a.(schedules)) then
        save_data (set_selected None (set_schedules (remove_at idx a.(schedules)) a))
      else a
  end.

(** [fill_inputs_from] together with the row click of [ui_table]. *)
Definition select_row (idx : nat) (a : AppState) : AppState :=
  match nth_error a.(schedules) idx with
  | None => set_selected (Some idx) a
  | Some s =>
      set_inputs s.(source_dir) s.(dest_dir) (Num.show_i32 s.(period_hours))
        s.(skip_file_exts_label) s.(skip_folders_label) s.(use_zip)
        (set_selected (Some idx) a)
  end.

(** ** Run coordination: [enum AppMsg], [spawn_backup], [tick] *)

Inductive AppMsg :=
| Log (s : string)
| BackupFinished (idx : nat) (ok : bool).

(** A background thread of [spawn_backup]: its cloned job and its index. *)
Record Worker := mkWorker { w_sched : Schedule; w_idx : nat }.

Fixpoint update_nth {A} (i : nat) (f : A -> A) (l : list A) : list A :=
  match l, i with
  | [], _ => []
  | h :: t, O => f h :: t
  | h :: t, S j => h :: update_nth j f t
  end.

(** [spawn_backup]: returns the new state and the thread it started. *)
Definition spawn_backup (env : Env) (idx : nat) (a : AppState) : AppState * list Worker :=
  match nth_error a.(schedules) idx with
  | None => (a, [])
  | Some s0 =>
      let s := set_running true s0 in
      let a := set_schedules (update_nth idx (set_running true) a.(schedules)) a in
      (log env ("Backup started: " ++ s.(source_dir)) a, [mkWorker s idx])
  end.

Definition action_run_now (env : Env) (a : AppState) : AppState * list Worker :=
  match a.(selected_index) with
  | None => (log env "Select a row to run" a, [])
  | Some idx =>
      match nth_error a.(schedules) idx with
      | None => (a, [])
      | Some s =>
          if s.(is_running) then (log env "Backup already running" a, [])
          else spawn_backup env idx a
      end
  end.

(** [(now - s.last_time).num_seconds() / 3600 >= s.period_hours]:
    both divisions truncate toward zero. *)
Definition elapsed_hours (now last : Z) : Z := Z.quot (Z.quot (now - last) 1000000000) 3600.

Definition is_due (now : Z) (s : Schedule) : bool :=
  if s.(is_running) then false else period_hours s <=? elapsed_hours now s.(last_time).

(** One message of the drain loop of [tick]. *)
Definition handle_msg (env : Env) (a : AppState) (m : AppMsg) : AppState :=
  match m with
  | Log s => log env s a
  | BackupFinished idx ok =>
      let a := set_schedules
                 (update_nth idx (fun s => set_last_time env.(env_now) (set_running false s))
                    a.(schedules)) a in
      log env (if ok then "Backup completed" else "Backup failed") a
  end.

Definition drain (env : Env) (msgs : list AppMsg) (a : AppState) : AppState :=
  fold_left (handle_msg env) msgs a.

(** [for idx in 0..self.schedules.len()] of the periodic scan. *)
Fixpoint scan_loop (env : Env) (idxs : list nat) (a : AppState) : AppState * list Worker :=
  match idxs with
  | [] => (a, [])
  | idx :: rest =>
      let run := match nth_error a.(schedules) idx with
                 | Some s => is_due env.(env_now) s
                 | None => false
                 end in
      let (a1, w1) := if run then spawn_backup env idx a else (a, []) in
      let (a2, w2) := scan_loop env rest a1 in
      (a2, w1 ++ w2)%list
  end.

Definition scan (env : Env) (a : AppState) : AppState * list Worker :=
  scan_loop env (seq 0 (length a.(schedules))) a.

(** [tick]: drain the channel, then scan when a second has elapsed since the
    last scan ([second_elapsed]). *)
Definition tick (env : Env) (second_elapsed : bool) (msgs : list AppMsg) (a : AppState)
    : AppState * list Worker :=
  let a := drain env msgs a in
  if second_elapsed then scan env a else (a, []).

(** ** The running program: controller, channel and threads in flight *)

Record Sys := mkSys { app : AppState; inflight : list Worker; queue : list AppMsg }.

(** What happens in one step of the running program. *)
Inductive Action :=
| AInputs | ASelect | AAdd | AEdit | ADelete | ARunNow | ATick | AWorkerLog | AWorkerDone.

Inductive step : Action -> Sys -> Sys -> Prop :=
| StInputs a ws q src dst per exts folders z :
    step AInputs (mkSys a ws q) (mkSys (set_inputs src dst per exts folders z a) ws q)
| StSelect a ws q i :
    (i < length a.(schedules))%nat ->
    step ASelect (mkSys a ws q) (mkSys (select_row i a) ws q)
| StAdd env a ws q :
    step AAdd (mkSys a ws q) (mkSys (action_add env a) ws q)
| StEdit env a a' ws q :
    action_edit env a = Some a' ->
    step AEdit (mkSys a ws q) (mkSys a' ws q)
| StDelete env a ws q :
    step ADelete (mkSys a ws q) (mkSys (action_delete env a) ws q)
| StRunNow env a ws q :
    step ARunNow (mkSys a ws q)
         (mkSys (fst (action_run_now env a)) (ws ++ snd (action_run_now env a))%list q)
| StTick env b a ws q :
    step ATick (mkSys a ws q)
         (mkSys (fst (tick env b q a)) (ws ++ snd (tick env b q a))%list [])
| StWorkerLog a ws q k w m :
    nth_error ws k = Some w ->
    step AWorkerLog (mkSys a ws q) (mkSys a ws (q ++ [Log m])%list)
| StWorkerDone a ws q k w ok :
    nth_error ws k = Some w ->
    step AWorkerDone (mkSys a ws q)
         (mkSys a (remove_at k ws) (q ++ [BackupFinished w.(w_idx) ok])%list).

(** [AppState::default]: empty inputs, then [load_data]. *)
Definition app_default (env : Env) (ini : option string) : AppState :=
  load_data env (mkAppState [] None "" (default_backup_root env) "24" "" "" "" "" false
                   [] ini 0).

Definition sys_init (env : Env) (ini : option string) : Sys :=
  mkSys (app_default env ini) [] [].

(** Runs of the program whose actions satisfy [allowed]. *)
Inductive reachable (allowed : Action -> bool) : Sys -> Prop :=
| ReachInit env ini : reachable allowed (sys_init env ini)
| ReachStep act s s' :
    reachable allowed s -> allowed act = true -> step act s s' -> reachable allowed s'.

Definition any_action (_ : Action) : bool := true.
Definition no_delete (act : Action) : bool :=
  match act with ADelete => false | _ => true end.

Definition workers_of (id : nat) (ws : list Worker) : nat :=
  length (filter (fun w => Nat.eqb w.(w_sched).(ghost_id) id) ws).

(** ** Filter evaluator and copy engine: [parse_skip_tokens], [copy_recursive] *)

(** [Path::extension] of a file name: the part after the last dot, none when
    there is no dot, when the only dot starts the name, or for [".."]. *)
Fixpoint rsplit_at_dot (s : string) : option (string * string) :=
  match s with
  | EmptyString => None
  | String c r =>
      match rsplit_at_dot r with
      | Some (b, a) => Some (String c b, a)
      | None => if Ascii.eqb c "."%char then Some (EmptyString, r) else None
      end
  end.

Definition extension (name : string) : option string :=
  if String.eqb name ".." then None
  else match rsplit_at_dot name with
       | None => None
       | Some (before, after) => if RStr.is_empty before then None else Some after
       end.

(** [parse_skip_tokens]: "*.log *.tmp" becomes ["log"; "tmp"]. *)
Definition parse_skip_tokens (label : string) : list string :=
  map RStr.to_ascii_lowercase
    (map (RStr.trim_start_matches ".")
       (map (RStr.trim_start_matches "*.")
          (filter (fun s => negb (RStr.is_empty s))
             (map RStr.trim (RStr.split_whitespace label))))).

(** The extension test of [copy_recursive] for a file name. *)
Definition skip_by_ext (skip_exts : list string) (name : string) : bool :=
  let ext := RStr.to_ascii_lowercase (unwrap_or (extension name) "") in
  negb (RStr.is_empty ext) && existsb (String.eqb ext) skip_exts.

(** The folder test of [copy_recursive] for a directory name. *)
Definition skip_by_folder (skip_folders : list string) (name : string) : bool :=
  existsb (fun f => RStr.eq_ignore_ascii_case f name) skip_folders.

(** [io::Result] *)
Inductive io_result (A : Type) := IoOk (a : A) | IoErr (e : string).
Arguments IoOk {A} a.
Arguments IoErr {A} e.

(** The source tree as the copy engine sees it: [is_file] entries carry the
    outcome of [fs::copy] (None = Ok), [is_dir] entries the outcome of
    [fs::read_dir] with one [io::Result] per entry, and [NOther] is neither. *)
#[warnings="-register-all"]
Inductive Node :=
| NFile (copy_err : option string)
| NDir (listing : io_result (list (io_result (string * Node))))
| NOther.

(** What the run does to the outside world, in order. *)
Inductive Event :=
| EvMkdir (p : string) (ok : bool)        (* fs::create_dir_all *)
| EvReadDir (p : string) (ok : bool)      (* fs::read_dir *)
| EvEntryErr (p : string)                 (* an Err entry of the listing *)
| EvCopy (src dst : string) (ok : bool)   (* fs::copy *)
| EvRemove (p : string)                   (* fs::remove_file *)
| EvZip (zip_name : string)               (* Command::new("7z") *)
| EvSend (m : AppMsg).                    (* tx.send *)

(** Outcome of [Command::new("7z")...status()]. *)
Inductive ZipOutcome :=
| ZipSuccess
| ZipExit (status : string)
| ZipLaunchErr (e : string).

Record FsEnv := mkFsEnv {
  fs_exists : string -> bool;
  fs_create_dir_all : string -> option string;   (* None = Ok, Some e = Err e *)
  fs_tree : Node;                                (* the tree at source_dir *)
  fs_zip : ZipOutcome;
  fs_stamp : string                              (* Local::now().format("%y%m%d%H") *)
}.

Definition copy_fail_msg (src dst e : string) : string :=
  "Failed to copy " ++ src ++ " -> " ++ dst ++ ": " ++ e.

(** The [for entry_res in fs::read_dir(source)?] loop of [copy_recursive];
    [recurse] is the recursive call on a sub-directory. *)
Definition copy_entries (recurse : string -> Node -> string -> list Event * io_result unit)
    (source dest : string) (skip_exts skip_folders : list string)
    : list (io_result (string * Node)) -> list Event * io_result unit :=
  fix loop es :=
    match es with
    | [] => ([], IoOk tt)
    | IoErr e :: _ => ([EvEntryErr source], IoErr e)
    | IoOk (name, child) :: rest =>
        let path := path_join source name in
        let dest_path := path_join dest name in
        match child with
        | NDir _ =>
            if skip_by_folder skip_folders name then loop rest
            else
              let (tr, r) := recurse path child dest_path in
              match r with
              | IoErr e => (tr, IoErr e)
              | IoOk _ => let (tr', r') := loop rest in ((tr ++ tr')%list, r')
              end
        | NFile err =>
            if skip_by_ext skip_exts name then loop rest
            else
              let ev := match err with
                        | None => [EvCopy path dest_path true]
                        | Some e => [EvCopy path dest_path false;
                                     EvSend (Log (copy_fail_msg path dest_path e))]
                        end in
              let (tr', r') := loop rest in ((ev ++ tr')%list, r')
        | NOther => loop rest
        end
    end.

Fixpoint copy_recursive (fs : FsEnv) (source : string) (node : Node) (dest : string)
    (skip_exts skip_folders : list string) {struct node} : list Event * io_result unit :=
  match fs.(fs_create_dir_all) dest with
  | Some e => ([EvMkdir dest false], IoErr e)
  | None =>
      match node with
      | NDir (IoErr e) => ([EvMkdir dest true; EvReadDir source false], IoErr e)
      | NFile _ | NOther =>
          ([EvMkdir dest true; EvReadDir source false], IoErr "Not a directory")
      | NDir (IoOk entries) =>
          let (tr, r) :=
            copy_entries (fun p c d => copy_recursive fs p c d skip_exts skip_folders)
              source dest skip_exts skip_folders entries in
          ((EvMkdir dest true :: EvReadDir source true :: tr)%list, r)
      end
  end.

(** The log line of the [match status] of the [// Zip] block. *)
Definition zip_status_msg (z : ZipOutcome) (zip_name : string) : string :=
  match z with
  | ZipSuccess => "Zipped to " ++ zip_name
  | ZipExit st => "7z exited with status " ++ st
  | ZipLaunchErr e => "Failed to run 7z: " ++ e
  end.

(** The [// Zip] block of [execute_backup]. *)
Definition zip_events (fs : FsEnv) (dest_dir : string) : list Event :=
  let zip_name := dest_dir ++ "_" ++ fs.(fs_stamp) ++ ".zip" in
  ((if fs.(fs_exists) zip_name then [EvRemove zip_name] else [])
   ++ [EvZip zip_name;
       EvSend (Log (zip_status_msg fs.(fs_zip) zip_name))])%list.

(** The [skip_folders] of [execute_backup]. *)
Definition skip_folder_tokens (label : string) : list string :=
  map RStr.to_ascii_lowercase (RStr.split_whitespace label).

Definition execute_backup (fs : FsEnv) (s : Schedule) : list Event * bool :=
  let src := s.(source_dir) in
  let dst := s.(dest_dir) in
  if negb (fs.(fs_exists) src) then
    ([EvSend (Log ("Source does not exist: " ++ src))], false)
  else
    let pre :=
      if fs.(fs_exists) dst then IoOk []
      else match fs.(fs_create_dir_all) dst with
           | Some e => IoErr e
           | None => IoOk [EvMkdir dst true]
           end in
    match pre with
    | IoErr e =>
        ([EvMkdir dst false; EvSend (Log ("Failed to create destination: " ++ e))], false)
    | IoOk tr1 =>
        let tr2 := (tr1 ++ [EvSend (Log (src ++ " backup started"))])%list in
        let skip_exts := parse_skip_tokens s.(skip_file_exts_label) in
        let skip_folders := skip_folder_tokens s.(skip_folders_label) in
        let (tr3, r) := copy_recursive fs src fs.(fs_tree) dst skip_exts skip_folders in
        match r with
        | IoErr e => ((tr2 ++ tr3 ++ [EvSend (Log ("Copy failed: " ++ e))])%list, false)
        | IoOk _ =>
            ((tr2 ++ tr3 ++ (if s.(use_zip) then zip_events fs dst else [])
              ++ [EvSend (Log (src ++ " backup completed"))])%list, true)
        end
    end.

(** The thread body of [spawn_backup]. *)
Definition backup_thread (fs : FsEnv) (w : Worker) : list Event :=
  let (tr, ok) := execute_backup fs w.(w_sched) in
  (tr ++ [EvSend (BackupFinished w.(w_idx) ok)])%list.

(** ** Input helpers of [ui_top] *)

Definition set_skip_files (input label : string) (a : AppState) : AppState :=
  mkAppState a.(schedules) a.(selected_index) a.(input_source_dir) a.(input_dest_dir)
    a.(input_period_hours) input a.(input_skip_folder) label
    a.(label_skip_folders) a.(input_use_zip) a.(logs) a.(ini_file) a.(next_id).

Definition set_skip_folders (input label : string) (a : AppState) : AppState :=
  mkAppState a.(schedules) a.(selected_index) a.(input_source_dir) a.(input_dest_dir)
    a.(input_period_hours) a.(input_skip_file_ext) input a.(label_skip_files)
    label a.(input_use_zip) a.(logs) a.(ini_file) a.(next_id).

(** [add_skip_file_ext] ("Add ext" button). *)
Definition add_skip_file_ext (env : Env) (a : AppState) : AppState :=
  let ext := RStr.trim a.(input_skip_file_ext) in
  if RStr.is_empty ext then a
  else
    let token := "*." ++ ext in
    if existsb (fun e => RStr.eq_ignore_ascii_case e token)
         (RStr.split_whitespace a.(label_skip_files))
    then log env "Duplicate extension" a
    else
      let label := if RStr.is_empty a.(label_skip_files) then token
                   else a.(label_skip_files) ++ " " ++ token in
      set_skip_files "" label a.

(** [add_skip_folder] ("Add folder" button). *)
Definition add_skip_folder (env : Env) (a : AppState) : AppState :=
  let name := RStr.trim a.(input_skip_folder) in
  if RStr.is_empty name then a
  else
    if existsb (fun e => RStr.eq_ignore_ascii_case e name)
         (RStr.split_whitespace a.(label_skip_folders))
    then log env "Duplicate folder" a
    else
      let label := if RStr.is_empty a.(label_skip_folders) then name
                   else a.(label_skip_folders) ++ " " ++ name in
      set_skip_folders "" label a.

(** [Path::file_name] on a Unix path: the last component when it is a
    plain name; empty and [.] components are normalized away. *)
Definition file_name (p : string) : option string :=
  let comps := filter (fun c => negb (RStr.is_empty c || String.eqb c "."))
                 (RStr.split_by (fun c => Ascii.eqb c "/"%char) p) in
  match rev comps with
  | [] => None
  | n :: _ => if String.eqb n ".." then None else Some n
  end.

Definition default_dest_for_source (env : Env) (source : string) : string :=
  path_join (default_backup_root env) (unwrap_or (file_name source) "backup").

(** The source "Choose..." button once the dialog returned [path]. *)
Definition pick_source (env : Env) (path : string) (a : AppState) : AppState :=
  let a := set_inputs path a.(input_dest_dir) a.(input_period_hours) a.(label_skip_files)
             a.(label_skip_folders) a.(input_use_zip) a in
  if negb (RStr.is_empty a.(input_source_dir)) then
    if (RStr.is_empty a.(input_dest_dir)
        || String.eqb a.(input_dest_dir) (default_backup_root env))%bool
    then set_inputs a.(input_source_dir) (default_dest_for_source env a.(input_source_dir))
           a.(input_period_hours) a.(label_skip_files) a.(label_skip_folders)
           a.(input_use_zip) a
    else a
  else a.

(** The destination "Choose..." button once the dialog returned [path]. *)
Definition pick_dest (env : Env) (path : string) (a : AppState) : AppState :=
  if String.eqb a.(input_source_dir) path then log env "Destination cannot equal source" a
  else set_inputs a.(input_source_dir) path a.(input_period_hours) a.(label_skip_files)
         a.(label_skip_folders) a.(input_use_zip) a.

(** ** Auxiliary notions for the statements *)

(** The same tree with every [fs::copy] succeeding. *)
Definition map_entries (f : Node -> Node)
    : list (io_result (string * Node)) -> list (io_result (string * Node)) :=
  fix go es :=
    match es with
    | [] => []
    | IoOk (nm, c) :: rest => IoOk (nm, f c) :: go rest
    | IoErr e :: rest => IoErr e :: go rest
    end.

Fixpoint succeed_all (n : Node) : Node :=
  match n with
  | NFile _ => NFile None
  | NDir (IoOk es) => NDir (IoOk (map_entries succeed_all es))
  | NDir (IoErr e) => NDir (IoErr e)
  | NOther => NOther
  end.

Definition with_tree (t : Node) (fs : FsEnv) : FsEnv :=
  mkFsEnv fs.(fs_exists) fs.(fs_create_dir_all) t fs.(fs_zip) fs.(fs_stamp).

(** The threads in flight started for index [idx]. *)
Definition launched (idx : nat) (ws : list Worker) : nat :=
  length (filter (fun w => Nat.eqb w.(w_idx) idx) ws).

(** The [BackupFinished idx _] messages waiting in the channel. *)
Definition pending_fin (idx : nat) (q : list AppMsg) : nat :=
  length (filter (fun m => match m with
                           | BackupFinished j _ => Nat.eqb j idx
                           | Log _ => false
                           end) q).

Definition running_at (idx : nat) (l : list Schedule) : bool :=
  match nth_error l idx with
  | Some s => s.(is_running)
  | None => false
  end.

(** The bookkeeping of runs: a running flag is set exactly when one
    thread of that index is in flight or its completion is queued; each
    thread's job is the job at its index; job identities are distinct and
    below [next_id]. *)
Record run_inv (st : Sys) : Prop := mkRunInv {
  ri_count : forall i, (launched i st.(inflight) + pending_fin i st.(queue))%nat =
                       if running_at i st.(app).(schedules) then 1%nat else 0%nat;
  ri_ghost : forall w, In w st.(inflight) ->
               exists s, nth_error st.(app).(schedules) w.(w_idx) = Some s /\
                         s.(ghost_id) = w.(w_sched).(ghost_id);
  ri_nodup : NoDup (map ghost_id st.(app).(schedules));
  ri_fresh : Forall (fun g => (g < st.(app).(next_id))%nat) (map ghost_id st.(app).(schedules))
}.

(** A trace with its log lines dropped and every copy read as successful. *)
Definition normalize (tr : list Event) : list Event :=
  flat_map (fun e => match e with
                     | EvCopy p q _ => [EvCopy p q true]
                     | EvSend (Log _) => []
                     | e => [e]
                     end) tr.

(** Structural failures: a directory that cannot be created or listed. *)
Definition is_struct_fail (e : Event) : bool :=
  match e with
  | EvMkdir _ false | EvReadDir _ false | EvEntryErr _ => true
  | _ => false
  end.

Definition no_fail (tr : list Event) : Prop :=
  forallb (fun e => negb (is_struct_fail e)) tr = true.

(** A failing directory operation: a directory that cannot be created, a
    directory whose listing cannot be opened, or an entry of a listing that
    cannot be read ([entry_res?]). *)
Definition dir_fail (e : Event) : bool :=
  match e with
  | EvMkdir _ false | EvReadDir _ false | EvEntryErr _ => true
  | _ => false
  end.

(** Every failed copy is immediately followed by its warning. *)
Fixpoint copy_failures_warned (tr : list Event) : Prop :=
  match tr with
  | [] => True
  | EvCopy p q false :: rest =>
      match rest with
      | EvSend (Log m) :: rest' =>
          (exists e, m = copy_fail_msg p q e) /\ copy_failures_warned rest'
      | _ => False
      end
  | _ :: rest => copy_failures_warned rest
  end.

Fixpoint has_char (c : ascii) (s : string) : bool :=
  match s with
  | EmptyString => false
  | String d r => Ascii.eqb c d || has_char c r
  end.

(** The fields a record of [AutoBackup.ini] can carry without corruption. *)
Definition field_ok (f : string) : bool :=
  negb (has_char ","%char f) && negb (has_char "010"%char f).

Definition schedule_storable (s : Schedule) : bool :=
  field_ok s.(source_dir) && field_ok s.(dest_dir) && field_ok s.(skip_file_exts_label)
  && field_ok s.(skip_folders_label) && Num.in_i32 s.(period_hours).

(** The persisted configuration of a job. *)
Definition config (s : Schedule) : string * string * Z * string * string * bool :=
  (s.(source_dir), s.(dest_dir), s.(period_hours), s.(skip_file_exts_label),
   s.(skip_folders_label), s.(use_zip)).

Definition set_period_input (p : string) (a : AppState) : AppState :=
  mkAppState a.(schedules) a.(selected_index) a.(input_source_dir) a.(input_dest_dir)
    p a.(input_skip_file_ext) a.(input_skip_folder) a.(label_skip_files)
    a.(label_skip_folders) a.(input_use_zip) a.(logs) a.(ini_file) a.(next_id).

(** The period input is rejected by [action_add]'s parse-and-filter. *)
Definition period_input_invalid (a : AppState) : bool :=
  match Num.parse_i32 (RStr.trim a.(input_period_hours)) with
  | Some p => p <? 1
  | None => true
  end.

(** The tree as [copy_recursive] sees it through its skip lists: skipped
    files and folders removed. *)
Definition prune_entries (f : Node -> Node) (skip_exts skip_folders : list string)
    : list (io_result (string * Node)) -> list (io_result (string * Node)) :=
  fix go es :=
    match es with
    | [] => []
    | IoErr e :: rest => IoErr e :: go rest
    | IoOk (nm, c) :: rest =>
        match c with
        | NDir _ => if skip_by_folder skip_folders nm then go rest else IoOk (nm, f c) :: go rest
        | NFile _ => if skip_by_ext skip_exts nm then go rest else IoOk (nm, c) :: go rest
        | NOther => IoOk (nm, c) :: go rest
        end
    end.

Fixpoint prune (skip_exts skip_folders : list string) (n : Node) : Node :=
  match n with
  | NDir (IoOk es) =>
      NDir (IoOk (prune_entries (prune skip_exts skip_folders) skip_exts skip_folders es))
  | _ => n
  end.

(** The thread the scan starts for index [i] of [a], if that job is due. *)
Definition due_worker (env : Env) (a : AppState) (i : nat) : list Worker :=
  match nth_error a.(schedules) i with
  | Some s => if is_due env.(env_now) s then [mkWorker (set_running true s) i] else []
  | None => []
  end.

(** The log line [tick] writes for a message. *)
Definition msg_line (m : AppMsg) : string :=
  match m with
  | Log s => s
  | BackupFinished _ ok => if ok then "Backup completed" else "Backup failed"
  end.

(** What a [BackupFinished] does to its job. *)
Definition finish_job (now : Z) (s : Schedule) : Schedule :=
  set_last_time now (set_running false s).

(** The selection names no row or an existing one. *)
Definition sel_ok (a : AppState) : Prop :=
  match a.(selected_index) with
  | None => True
  | Some i => (i < length a.(schedules))%nat
  end.

(** A [BackupFinished] message sent by a thread. *)
Definition is_finish (e : Event) : bool :=
  match e with EvSend (BackupFinished _ _) => true | _ => false end.

(** What the scan does to a job it finds due. *)
Definition mark_due (now : Z) (s : Schedule) : Schedule :=
  if is_due now s then set_running true s else s.

Definition finishes (i : nat) (q : list AppMsg) : bool :=
  existsb (fun m => match m with BackupFinished j _ => Nat.eqb j i | Log _ => false end) q.

Fixpoint count_char (c : ascii) (s : string) : nat :=
  match s with
  | EmptyString => 0
  | String d r => ((if Ascii.eqb c d then 1 else 0) + count_char c r)%nat
  end.

Fixpoint no_ws (s : string) : bool :=
  match s with
  | EmptyString => true
  | String c r => negb (RStr.is_ws c) && no_ws r
  end.

(** A single path component that [Path::file_name] returns as is. *)
Definition plain_name (n : string) : Prop :=
  n <> EmptyString /\ has_char "/"%char n = false /\ n <> "." /\ n <> "..".

(** ** Sample inputs *)

Definition env0 : Env :=
  mkEnv (fun p => String.eqb p "/data") (fun _ => None) 0 (Some "/home/u").

Definition fs0 (t : Node) : FsEnv :=
  mkFsEnv (fun p => String.eqb p "/src" || String.eqb p "/dst") (fun _ => None) t
    ZipSuccess "26101412".

(** The input bar with an extension and a folder typed in. *)
Definition app0 : AppState :=
  mkAppState [] None "" "" "24" " log " " node_modules " "*.TMP" "target" false [] None 0.

(** Two jobs, the first one selected. *)
Definition app1 : AppState :=
  set_selected (Some 0%nat)
    (set_schedules [Schedule_new env0 0 "/src" "/dst" 24 "" "" false; Schedule_new env0 1 "/a" "/b" 1 "" "" true] app0).

(** Three jobs, none selected. *)
Definition app3 : AppState :=
  set_schedules [Schedule_new env0 0 "/src" "/dst" 24 "" "" false;
                 Schedule_new env0 1 "/a" "/b" 1 "" "" true;
                 Schedule_new env0 2 "/c" "/d" 2 "" "" false] app0.

(** ** Theorems *)

(** *** Adding and editing *)

Lemma nth_error_update_nth {A} (i j : nat) (f : A -> A) (l : list A) :
  nth_error (update_nth i f l) j =
  if Nat.eqb i j then option_map f (nth_error l j) else nth_error l j.
Proof.
  revert i j; induction l as [|h t IH]; intros [|i] [|j]; simpl; auto;
    try (destruct (Nat.eqb _ _); reflexivity).
Qed.

Lemma length_update_nth {A} (i : nat) (f : A -> A) (l : list A) :
  length (update_nth i f l) = length l.
Proof.
  revert i; induction l as [|h t IH]; intros [|i]; simpl; auto.
Qed.

(** C1 (evidence): when the destination input equals an existing, non-empty
    source input, [action_add] appends the job; no check compares them. *)
Theorem action_add_accepts_dest_equal_source (env : Env) (a : AppState) :
  RStr.is_empty (RStr.trim a.(input_source_dir)) = false ->
  env.(env_exists) a.(input_source_dir) = true ->
  a.(input_dest_dir) = a.(input_source_dir) ->
  (action_add env a).(schedules) =
  (a.(schedules) ++
   [Schedule_new env a.(next_id) a.(input_source_dir) a.(input_source_dir)
      (input_period a) a.(label_skip_files) a.(label_skip_folders) a.(input_use_zip)])%list.
Proof.
  intros Hne Hex Heq.
  unfold action_add, ensure_dest.
  rewrite Hne, Hex, Heq. simpl. rewrite Hne, Hex. reflexivity.
Qed.

Lemma action_add_accepts_dest_equal_source_witness :
  let a := set_inputs "/data" "/data" "24" "" "" false (app_default env0 None) in
  RStr.is_empty (RStr.trim a.(input_source_dir)) = false /\
  env0.(env_exists) a.(input_source_dir) = true /\
  a.(input_dest_dir) = a.(input_source_dir) /\
  (action_add env0 a).(schedules) =
  (a.(schedules) ++
   [Schedule_new env0 a.(next_id) a.(input_source_dir) a.(input_source_dir)
      (input_period a) a.(label_skip_files) a.(label_skip_folders) a.(input_use_zip)])%list.
Proof.
  intros a.
  split; [reflexivity | split; [reflexivity | split; [reflexivity | ]]].
  apply action_add_accepts_dest_equal_source; reflexivity.
Defined.

Ltac split_conds :=
  repeat match goal with
  | |- context [if ?b then _ else _] => destruct b
  | |- context [match ?o with Some _ => _ | None => _ end] => destruct o
  end.

Lemma ensure_dest_period (env : Env) (a : AppState) (p : string) :
  ensure_dest env (set_period_input p a) = option_map (set_period_input p) (ensure_dest env a).
Proof.
  destruct a; unfold ensure_dest; cbn.
  destruct (env_exists env _); [reflexivity|].
  destruct (env_create_dir_all env _); reflexivity.
Qed.

Lemma action_add_period_only (env : Env) (a : AppState) (p : string) :
  input_period (set_period_input p a) = input_period a ->
  let r := action_add env a in
  let r' := action_add env (set_period_input p a) in
  r.(schedules) = r'.(schedules) /\ r.(logs) = r'.(logs).
Proof.
  intros Hp. unfold action_add. rewrite Hp, ensure_dest_period.
  destruct (ensure_dest env a) eqn:E; destruct a; cbn; split_conds; split; reflexivity.
Qed.

Lemma action_edit_period_only (env : Env) (a : AppState) (p : string) :
  input_period (set_period_input p a) = input_period a ->
  let r := action_edit env a in
  let r' := action_edit env (set_period_input p a) in
  option_map schedules r = option_map schedules r' /\
  option_map logs r = option_map logs r'.
Proof.
  intros Hp. unfold action_edit. rewrite Hp, ensure_dest_period.
  destruct (ensure_dest env a) eqn:E; destruct a; cbn; split_conds; split; reflexivity.
Qed.

(** C2 (counterexample): a period input of "0" does not stop [action_add]:
    the job is created. *)
Lemma action_add_period_zero_creates_job :
  let a := set_inputs "/data" "/backup" "0" "" "" false (app_default env0 None) in
  period_input_invalid a = true /\
  map config (action_add env0 a).(schedules) = [("/data", "/backup", 24, "", "", false)].
Proof. split; vm_compute; reflexivity. Qed.

(** C2 (amended): an invalid period input (not an [i32] after trimming, or
    below 1) is read as 24: [action_add] and [action_edit] then behave, on the
    job collection and on the log, exactly as with the input "24". *)
Theorem invalid_period_defaults_to_24 (a : AppState) :
  period_input_invalid a = true ->
  input_period a = 24 /\
  (forall env,
     (action_add env a).(schedules) = (action_add env (set_period_input "24" a)).(schedules) /\
     (action_add env a).(logs) = (action_add env (set_period_input "24" a)).(logs)) /\
  (forall env,
     option_map schedules (action_edit env a) =
       option_map schedules (action_edit env (set_period_input "24" a)) /\
     option_map logs (action_edit env a) =
       option_map logs (action_edit env (set_period_input "24" a))).
Proof.
  intros H.
  assert (H24 : input_period a = 24).
  { unfold period_input_invalid in H. unfold input_period.
    destruct (Num.parse_i32 (RStr.trim (input_period_hours a))) as [p|]; [|reflexivity].
    destruct (1 <=? p) eqn:E; [|reflexivity].
    apply Z.ltb_lt in H. apply Z.leb_le in E. lia. }
  assert (Hp : input_period (set_period_input "24" a) = input_period a).
  { rewrite H24. reflexivity. }
  split; [exact H24 | split; intros env].
  - apply (action_add_period_only env a "24" Hp).
  - apply (action_edit_period_only env a "24" Hp).
Qed.

Lemma invalid_period_defaults_to_24_witness :
  let a := set_inputs "/data" "/backup" "0" "" "" false (app_default env0 None) in
  period_input_invalid a = true /\ input_period a = 24.
Proof.
  intros a. split; [vm_compute; reflexivity |].
  apply (invalid_period_defaults_to_24 a). vm_compute. reflexivity.
Defined.

(** *** Scheduling *)

Lemma quot_nonpos (e d : Z) : e <= 0 -> 0 < d -> Z.quot e d <= 0.
Proof.
  intros He Hd.
  replace e with (- (- e)) by lia.
  rewrite Z.quot_opp_l by lia.
  assert (0 <= Z.quot (- e) d) by (apply Z.quot_pos; lia). lia.
Qed.

(** Whole-hour granularity: with [P >= 1], [quot (quot e 10^9) 3600 >= P]
    holds exactly when [e] nanoseconds reach [P] hours. *)
Lemma hours_due_iff (P e : Z) :
  1 <= P -> (P <=? Z.quot (Z.quot e 1000000000) 3600) = (P * 3600 * 1000000000 <=? e).
Proof.
  intros HP.
  destruct (Z.le_gt_cases 0 e) as [He | He].
  - rewrite (Z.quot_div_nonneg e) by lia.
    assert (Hq : 0 <= e / 1000000000) by (apply Z.div_pos; lia).
    rewrite Z.quot_div_nonneg by lia.
    pose proof (Z.div_mod e 1000000000 ltac:(lia)) as D1.
    pose proof (Z.mod_pos_bound e 1000000000 ltac:(lia)) as B1.
    pose proof (Z.div_mod (e / 1000000000) 3600 ltac:(lia)) as D2.
    pose proof (Z.mod_pos_bound (e / 1000000000) 3600 ltac:(lia)) as B2.
    set (q := e / 1000000000) in *.
    set (h := q / 3600) in *.
    destruct (P <=? h) eqn:E1; destruct (P * 3600 * 1000000000 <=? e) eqn:E2; auto.
    + apply Z.leb_le in E1; apply Z.leb_gt in E2. lia.
    + apply Z.leb_gt in E1; apply Z.leb_le in E2. lia.
  - assert (Z.quot e 1000000000 <= 0) by (apply quot_nonpos; lia).
    assert (Z.quot (Z.quot e 1000000000) 3600 <= 0) by (apply quot_nonpos; lia).
    destruct (P <=? _) eqn:E1; destruct (P * 3600 * 1000000000 <=? e) eqn:E2; auto.
    + apply Z.leb_le in E1. lia.
    + apply Z.leb_le in E2. lia.
Qed.

Lemma update_nth_none {A} (i : nat) (f : A -> A) (l : list A) :
  nth_error l i = None -> update_nth i f l = l.
Proof.
  revert i; induction l as [|h t IH]; intros [|i] E; simpl in *; try discriminate; auto.
  rewrite IH; auto.
Qed.

Lemma spawn_backup_workers (env : Env) (idx : nat) (a : AppState) (s : Schedule) :
  nth_error a.(schedules) idx = Some s ->
  snd (spawn_backup env idx a) = [mkWorker (set_running true s) idx].
Proof. intros H. unfold spawn_backup. rewrite H. reflexivity. Qed.

Lemma spawn_backup_schedules (env : Env) (idx : nat) (a : AppState) :
  (fst (spawn_backup env idx a)).(schedules) =
  update_nth idx (set_running true) a.(schedules).
Proof.
  unfold spawn_backup. destruct (nth_error _ idx) eqn:E; [reflexivity|].
  simpl. symmetry. apply update_nth_none. exact E.
Qed.

Lemma launched_app (idx : nat) (l1 l2 : list Worker) :
  launched idx (l1 ++ l2) = (launched idx l1 + launched idx l2)%nat.
Proof. unfold launched. rewrite filter_app, length_app. reflexivity. Qed.

Lemma scan_loop_launched (env : Env) (idxs : list nat) (a : AppState) (idx : nat) :
  NoDup idxs ->
  launched idx (snd (scan_loop env idxs a)) =
  if existsb (Nat.eqb idx) idxs then
    match nth_error a.(schedules) idx with
    | Some s => if is_due env.(env_now) s then 1%nat else 0%nat
    | None => 0%nat
    end
  else 0%nat.
Proof.
  revert a; induction idxs as [|i rest IH]; intros a Hnd; [reflexivity|].
  inversion Hnd as [|? ? Hni Hnd']; subst.
  simpl.
  destruct (nth_error (schedules a) i) as [si|] eqn:Ei.
  - destruct (is_due (env_now env) si) eqn:Ed.
    + destruct (spawn_backup env i a) as [a1 w1] eqn:Es.
      destruct (scan_loop env rest a1) as [a2 w2] eqn:Er. simpl.
      pose proof (spawn_backup_workers env i a si Ei) as Hw. rewrite Es in Hw. simpl in Hw.
      pose proof (spawn_backup_schedules env i a) as Hs. rewrite Es in Hs. simpl in Hs.
      specialize (IH a1 Hnd'). rewrite Er in IH. simpl in IH.
      rewrite launched_app, IH, Hw, Hs, nth_error_update_nth.
      unfold launched; simpl.
      destruct (Nat.eqb idx i) eqn:Eii; simpl.
      * apply Nat.eqb_eq in Eii; subst.
        rewrite Nat.eqb_refl, Ei, Ed.
        assert (existsb (Nat.eqb i) rest = false).
        { apply not_true_iff_false. intros Hx. apply existsb_exists in Hx.
          destruct Hx as [x [Hx1 Hx2]]. apply Nat.eqb_eq in Hx2; subst. contradiction. }
        rewrite H. reflexivity.
      * rewrite Nat.eqb_sym, Eii. simpl.
        destruct (existsb (Nat.eqb idx) rest); reflexivity.
    + destruct (scan_loop env rest a) as [a2 w2] eqn:Er. simpl.
      specialize (IH a Hnd'). rewrite Er in IH. simpl in IH. rewrite IH.
      destruct (Nat.eqb idx i) eqn:Eii; simpl.
      * apply Nat.eqb_eq in Eii; subst. rewrite Ei, Ed.
        destruct (existsb (Nat.eqb i) rest); reflexivity.
      * reflexivity.
  - destruct (scan_loop env rest a) as [a2 w2] eqn:Er. simpl.
    specialize (IH a Hnd'). rewrite Er in IH. simpl in IH. rewrite IH.
    destruct (Nat.eqb idx i) eqn:Eii; simpl.
    + apply Nat.eqb_eq in Eii; subst. rewrite Ei.
      destruct (existsb (Nat.eqb i) rest); reflexivity.
    + reflexivity.
Qed.

(** C3: at a scan, an idle job at index [idx] with period [P >= 1] and last
    run [T] is launched, exactly once, when [now >= T + P] hours, and not
    launched when [now < T + P] hours. *)
Theorem scan_launches_iff_period_elapsed (env : Env) (a : AppState) (idx : nat)
    (s : Schedule) :
  nth_error a.(schedules) idx = Some s ->
  s.(is_running) = false ->
  1 <= s.(period_hours) ->
  launched idx (snd (scan env a)) =
  if s.(last_time) + s.(period_hours) * 3600 * 1000000000 <=? env.(env_now) then 1%nat
  else 0%nat.
Proof.
  intros Hs Hr HP. unfold scan.
  rewrite scan_loop_launched by apply seq_NoDup.
  assert (Hin : existsb (Nat.eqb idx) (seq 0 (length (schedules a))) = true).
  { apply existsb_exists. exists idx. split; [|apply Nat.eqb_refl].
    apply in_seq. assert (idx < length (schedules a))%nat.
    { apply nth_error_Some. congruence. }
    lia. }
  rewrite Hin, Hs. unfold is_due, elapsed_hours. rewrite Hr, hours_due_iff by exact HP.
    replace (last_time s + period_hours s * 3600 * 1000000000 <=? env_now env)
      with (period_hours s * 3600 * 1000000000 <=? env_now env - last_time s).
    + reflexivity.
    + destruct (_ <=? env_now env - _) eqn:E1; destruct (_ <=? env_now env) eqn:E2; auto;
        [apply Z.leb_le in E1; apply Z.leb_gt in E2 | apply Z.leb_gt in E1; apply Z.leb_le in E2];
        lia.
Qed.

Lemma scan_launches_iff_period_elapsed_witness :
  let s := mkSchedule "/data" "/backup" 2 "" "" false 0 false 0 in
  let a := set_schedules [s] (app_default env0 None) in
  let env := mkEnv (env_exists env0) (env_create_dir_all env0) (7200 * 1000000000)
               (env_home env0) in
  nth_error a.(schedules) 0 = Some s /\ s.(is_running) = false /\ 1 <= s.(period_hours) /\
  launched 0 (snd (scan env a)) = 1%nat.
Proof.
  intros s a env.
  split; [reflexivity | split; [reflexivity | split; [simpl; lia |]]].
  rewrite (scan_launches_iff_period_elapsed env a 0 s); [reflexivity | reflexivity | reflexivity |].
  simpl; lia.
Defined.

(** *** Filter evaluator *)

Lemma lower_char_idem (c : ascii) : RStr.lower_char (RStr.lower_char c) = RStr.lower_char c.
Proof. destruct c as [[] [] [] [] [] [] [] []]; reflexivity. Qed.

Lemma to_lower_idem (s : string) :
  RStr.to_ascii_lowercase (RStr.to_ascii_lowercase s) = RStr.to_ascii_lowercase s.
Proof. induction s as [|c r IH]; simpl; [reflexivity|]. rewrite lower_char_idem, IH. reflexivity. Qed.

Lemma to_lower_empty (s : string) :
  RStr.is_empty (RStr.to_ascii_lowercase s) = RStr.is_empty s.
Proof. destruct s; reflexivity. Qed.

Lemma parse_skip_tokens_lower (label t : string) :
  In t (parse_skip_tokens label) -> RStr.to_ascii_lowercase t = t.
Proof.
  unfold parse_skip_tokens. intros H. apply in_map_iff in H.
  destruct H as [x [Hx _]]. subst. apply to_lower_idem.
Qed.

(** C8: a file is skipped by the extension rules exactly when it has a
    non-empty extension that equals, ignoring ASCII case, one of the tokens of
    the job's skip list; a file without extension is never skipped; and with
    the list "*.log", "app.LOG" is skipped but "applog" and "a.log.txt" are not. *)
Theorem skip_by_ext_case_insensitive_token (label name : string) :
  (skip_by_ext (parse_skip_tokens label) name = true <->
   exists e, extension name = Some e /\ e <> EmptyString /\
     exists t, In t (parse_skip_tokens label) /\ RStr.eq_ignore_ascii_case e t = true) /\
  (extension name = None -> skip_by_ext (parse_skip_tokens label) name = false) /\
  skip_by_ext (parse_skip_tokens "*.log") "app.LOG" = true /\
  skip_by_ext (parse_skip_tokens "*.log") "applog" = false /\
  skip_by_ext (parse_skip_tokens "*.log") "a.log.txt" = false.
Proof.
  split; [| split; [| split; [reflexivity | split; reflexivity]]].
  - unfold skip_by_ext. split.
    + intros H. apply andb_true_iff in H. destruct H as [Hne Hex].
      destruct (extension name) as [e|] eqn:Ee; simpl in Hne, Hex;
        [| discriminate].
      exists e. split; [reflexivity|]. split.
      * intros ->. discriminate.
      * apply existsb_exists in Hex. destruct Hex as [t [Ht Heq]].
        exists t. split; [exact Ht|]. unfold RStr.eq_ignore_ascii_case.
        apply String.eqb_eq in Heq. rewrite (parse_skip_tokens_lower label t Ht).
        rewrite Heq. apply String.eqb_refl.
    + intros [e [Ee [Hne [t [Ht Heq]]]]]. rewrite Ee. simpl.
      apply andb_true_iff. split.
      * rewrite to_lower_empty. destruct e; [contradiction | reflexivity].
      * apply existsb_exists. exists t. split; [exact Ht|].
        unfold RStr.eq_ignore_ascii_case in Heq.
        rewrite (parse_skip_tokens_lower label t Ht) in Heq. exact Heq.
  - intros Hn. unfold skip_by_ext. rewrite Hn. reflexivity.
Qed.

(** *** Persistence round trip *)

Lemma sapp_assoc (a b c : string) : ((a ++ b) ++ c)%string = (a ++ (b ++ c))%string.
Proof. induction a as [|x r IH]; simpl; [reflexivity|]. rewrite IH. reflexivity. Qed.

Lemma has_char_app (c : ascii) (a b : string) :
  has_char c (a ++ b) = (has_char c a || has_char c b)%bool.
Proof. induction a as [|x r IH]; simpl; [reflexivity|]. rewrite IH, orb_assoc. reflexivity. Qed.

Lemma has_char_cons (c d : ascii) (s : string) :
  has_char c (String d s) = (Ascii.eqb c d || has_char c s)%bool.
Proof. reflexivity. Qed.

Lemma read_line_nl (a rest : string) :
  has_char "010"%char a = false -> RStr.read_line (a ++ nl ++ rest) = (a ++ nl, rest).
Proof.
  induction a as [|x r IH]; intros H; [reflexivity|].
  apply orb_false_iff in H. destruct H as [Hx Hr].
  cbn [RStr.read_line append]. rewrite Ascii.eqb_sym, Hx, IH by exact Hr. reflexivity.
Qed.

Lemma read_line_nl_char (a rest : string) :
  has_char "010"%char a = false ->
  RStr.read_line (a ++ String "010"%char rest) = (a ++ nl, rest).
Proof. apply read_line_nl. Qed.

Lemma trim_end_app_nl (a : string) : RStr.trim_end (a ++ nl) = RStr.trim_end a.
Proof. induction a as [|x r IH]; simpl; [reflexivity|]. rewrite IH. reflexivity. Qed.

Lemma trim_end_app_ne (a t : string) :
  RStr.trim_end t <> EmptyString -> RStr.trim_end (a ++ t) = (a ++ RStr.trim_end t)%string.
Proof.
  intros Ht. induction a as [|x r IH]; simpl; [reflexivity|]. rewrite IH.
  destruct (r ++ RStr.trim_end t)%string eqn:E; [|reflexivity].
  destruct r; simpl in E; [contradiction | discriminate].
Qed.

Lemma trim_end_join (l : list string) :
  RStr.trim_end (last l "") = last l "" -> last l "" <> EmptyString ->
  RStr.trim_end (join_comma l) = join_comma l.
Proof.
  induction l as [|x [|y r] IH]; intros H1 H2; [reflexivity | exact H1 |].
  change (join_comma (x :: y :: r)) with (x ++ String ","%char (join_comma (y :: r)))%string.
  assert (HJ : forall J, RStr.trim_end J = J ->
                RStr.trim_end (String ","%char J) = String ","%char J).
  { intros J HJ0. simpl. rewrite HJ0, andb_false_r. reflexivity. }
  rewrite trim_end_app_ne; rewrite HJ by (apply IH; assumption); [reflexivity | discriminate].
Qed.

Lemma split_comma_app (a b : string) :
  has_char ","%char a = false ->
  RStr.split_comma (a ++ String ","%char b) = a :: RStr.split_comma b.
Proof.
  induction a as [|x r IH]; intros H; [reflexivity|].
  apply orb_false_iff in H. destruct H as [Hx Hr].
  unfold RStr.split_comma in *. cbn [RStr.split_by append].
  rewrite Ascii.eqb_sym, Hx, IH by exact Hr.
  reflexivity.
Qed.

Lemma split_comma_single (a : string) :
  has_char ","%char a = false -> RStr.split_comma a = [a].
Proof.
  induction a as [|x r IH]; intros H; [reflexivity|].
  apply orb_false_iff in H. destruct H as [Hx Hr].
  unfold RStr.split_comma in *. cbn [RStr.split_by append].
  rewrite Ascii.eqb_sym, Hx, IH by exact Hr.
  reflexivity.
Qed.

Lemma split_join (l : list string) :
  l <> [] -> forallb (fun f => negb (has_char ","%char f)) l = true ->
  RStr.split_comma (join_comma l) = l.
Proof.
  induction l as [|x [|y r] IH]; intros Hne H; [contradiction | |].
  - simpl in H. rewrite andb_true_r in H. apply negb_true_iff in H.
    apply split_comma_single. exact H.
  - simpl in H. apply andb_true_iff in H. destruct H as [Hx H].
    apply negb_true_iff in Hx.
    change (join_comma (x :: y :: r)) with (x ++ String ","%char (join_comma (y :: r)))%string.
    rewrite split_comma_app by exact Hx. rewrite IH; [reflexivity | discriminate | exact H].
Qed.

Lemma has_char_join (l : list string) :
  has_char "010"%char (join_comma l) = existsb (has_char "010"%char) l.
Proof.
  induction l as [|x [|y r] IH]; [reflexivity | simpl; rewrite orb_false_r; reflexivity |].
  change (join_comma (x :: y :: r)) with (x ++ String ","%char (join_comma (y :: r)))%string.
  rewrite has_char_app, has_char_cons, IH. reflexivity.
Qed.

(** Decimal digits *)

Lemma uint_roundtrip (d : Decimal.uint) : Num.uint_of_string (Num.string_of_uint d) = Some d.
Proof. induction d; simpl; try rewrite IHd; reflexivity. Qed.

Lemma to_uint_not_nil (m : N) : N.to_uint m <> Decimal.Nil.
Proof.
  intros H. pose proof (DecimalN.Unsigned.of_to m) as Hm. rewrite H in Hm.
  simpl in Hm. subst m. discriminate H.
Qed.

Lemma digits_value_show (m : N) : Num.digits_value (Num.show_N m) = Some (Z.of_N m).
Proof.
  unfold Num.digits_value, Num.show_N.
  pose proof (to_uint_not_nil m) as Hn.
  destruct (N.to_uint m) eqn:E; try contradiction;
    (simpl RStr.is_empty; cbv iota; rewrite <- E, uint_roundtrip, DecimalN.Unsigned.of_to;
     reflexivity).
Qed.

Lemma has_char_uint (d : Decimal.uint) :
  has_char ","%char (Num.string_of_uint d) = false /\
  has_char "010"%char (Num.string_of_uint d) = false.
Proof. induction d; simpl; auto. Qed.

Lemma parse_i32_digits (d : Decimal.uint) :
  d <> Decimal.Nil ->
  Num.parse_i32 (Num.string_of_uint d) =
  match Num.digits_value (Num.string_of_uint d) with
  | Some z => if Num.in_i32 z then Some z else None
  | None => None
  end.
Proof. destruct d; intros H; [contradiction | ..]; reflexivity. Qed.

Lemma parse_i32_neg_digits (d : Decimal.uint) :
  d <> Decimal.Nil ->
  Num.parse_i32 (String "-"%char (Num.string_of_uint d)) =
  match option_map Z.opp (Num.digits_value (Num.string_of_uint d)) with
  | Some z => if Num.in_i32 z then Some z else None
  | None => None
  end.
Proof. destruct d; intros H; [contradiction | ..]; reflexivity. Qed.

Lemma parse_i32_show (n : Z) : Num.in_i32 n = true -> Num.parse_i32 (Num.show_i32 n) = Some n.
Proof.
  intros Hr. unfold Num.show_i32. destruct (n <? 0) eqn:En.
  - apply Z.ltb_lt in En.
    unfold Num.show_N. rewrite parse_i32_neg_digits by apply to_uint_not_nil.
    fold (Num.show_N (Z.to_N (- n))). rewrite digits_value_show. simpl.
    rewrite Z2N.id by lia. rewrite Z.opp_involutive, Hr. reflexivity.
  - apply Z.ltb_ge in En.
    unfold Num.show_N. rewrite parse_i32_digits by apply to_uint_not_nil.
    fold (Num.show_N (Z.to_N n)). rewrite digits_value_show.
    rewrite Z2N.id by lia. rewrite Hr. reflexivity.
Qed.

Lemma has_char_show_i32 (n : Z) :
  has_char ","%char (Num.show_i32 n) = false /\ has_char "010"%char (Num.show_i32 n) = false.
Proof.
  unfold Num.show_i32, Num.show_N.
  destruct (n <? 0); simpl; apply has_char_uint.
Qed.

Lemma parse_usize_digits (d : Decimal.uint) :
  d <> Decimal.Nil ->
  Num.parse_usize (Num.string_of_uint d) =
  match Num.digits_value (Num.string_of_uint d) with
  | Some z => if z <? 2 ^ 64 then Some (Z.to_nat z) else None
  | None => None
  end.
Proof. destruct d; intros H; [contradiction | ..]; reflexivity. Qed.

Lemma trim_uint_nl (d : Decimal.uint) :
  d <> Decimal.Nil -> RStr.trim (Num.string_of_uint d ++ nl) = Num.string_of_uint d.
Proof.
  intros Hd. unfold RStr.trim.
  assert (Hs : RStr.trim_start (Num.string_of_uint d ++ nl) = (Num.string_of_uint d ++ nl)%string)
    by (destruct d; [contradiction | ..]; reflexivity).
  rewrite Hs, trim_end_app_nl. clear Hd Hs.
  induction d; simpl; try rewrite IHd; try rewrite andb_false_r; reflexivity.
Qed.

Lemma parse_usize_show (n : nat) :
  (Z.of_nat n < 2 ^ 64) -> Num.parse_usize (RStr.trim (Num.show_usize n ++ nl)) = Some n.
Proof.
  intros Hn. unfold Num.show_usize, Num.show_N.
  rewrite trim_uint_nl by apply to_uint_not_nil.
  rewrite parse_usize_digits by apply to_uint_not_nil.
  fold (Num.show_N (N.of_nat n)). rewrite digits_value_show.
  rewrite nat_N_Z.
  destruct (Z.of_nat n <? 2 ^ 64) eqn:E; [| apply Z.ltb_ge in E; lia].
  rewrite Nat2Z.id. reflexivity.
Qed.

Lemma render_schedule_line (s : Schedule) (rest : string) :
  schedule_storable s = true ->
  RStr.read_line (render_schedule s ++ rest) = (render_schedule s, rest).
Proof.
  intros H. unfold render_schedule. rewrite sapp_assoc. apply read_line_nl.
  unfold schedule_storable, field_ok in H.
  repeat rewrite andb_true_iff in H. repeat rewrite negb_true_iff in H.
  rewrite has_char_join. simpl existsb.
  destruct (has_char_show_i32 (period_hours s)) as [_ Hp].
  assert (Hb : has_char "010"%char (Num.show_bool (use_zip s)) = false)
    by (destruct (use_zip s); reflexivity).
  rewrite Hp, Hb. rewrite !orb_false_r.
  destruct H as [[[[[_ ->] [_ ->]] [_ ->]] [_ ->]] _]. reflexivity.
Qed.

Lemma parse_record_render (env : Env) (id : nat) (s : Schedule) :
  schedule_storable s = true ->
  parse_record env id (render_schedule s) =
  Some (Schedule_new env id s.(source_dir) s.(dest_dir) s.(period_hours)
          s.(skip_file_exts_label) s.(skip_folders_label) s.(use_zip)).
Proof.
  intros H. unfold parse_record, render_schedule.
  rewrite trim_end_app_nl.
  rewrite trim_end_join by (destruct (use_zip s); simpl; first [reflexivity | discriminate]).
  unfold schedule_storable, field_ok in H.
  repeat rewrite andb_true_iff in H. repeat rewrite negb_true_iff in H.
  destruct H as [[[[H1 H2] H3] H4] H5].
  rewrite split_join.
  - simpl. rewrite parse_i32_show by exact H5.
    destruct (use_zip s); reflexivity.
  - discriminate.
  - destruct (has_char_show_i32 (period_hours s)) as [Hp _].
    destruct H1 as [H1 _]. destruct H2 as [H2 _]. destruct H3 as [H3 _]. destruct H4 as [H4 _].
    simpl. rewrite H1, H2, Hp, H3, H4. destruct (use_zip s); reflexivity.
Qed.

Lemma load_records_render (env : Env) (js : list Schedule) (a : AppState) :
  forallb schedule_storable js = true ->
  let r := load_records env (length js) (fold_right String.append "" (map render_schedule js)) a in
  map config r.(schedules) = (map config a.(schedules) ++ map config js)%list /\
  (forall x, In x r.(schedules) -> In x a.(schedules) \/ x.(is_running) = false).
Proof.
  revert a; induction js as [|s js IH]; intros a Hok; simpl.
  - rewrite app_nil_r. split; [reflexivity | auto].
  - apply andb_true_iff in Hok. destruct Hok as [Hs Hok].
    rewrite render_schedule_line by exact Hs.
    rewrite parse_record_render by exact Hs.
    destruct (IH (set_next_id (S (next_id a))
                    (set_schedules (schedules a ++
                       [Schedule_new env (next_id a) (source_dir s) (dest_dir s) (period_hours s)
                          (skip_file_exts_label s) (skip_folders_label s) (use_zip s)]) a)) Hok)
      as [IH1 IH2].
    split.
    + rewrite IH1. simpl. rewrite map_app, <- app_assoc. reflexivity.
    + intros x Hx. destruct (IH2 x Hx) as [Hin | Hr]; [| right; exact Hr].
      simpl in Hin. apply in_app_or in Hin. destruct Hin as [Hin | [Hin | []]].
      * left; exact Hin.
      * right. subst x. reflexivity.
Qed.

(** C9: saving the job collection and loading the file again (as
    [AppState::default] does) gives back the same jobs in the same order,
    each idle, when no field contains a comma or a newline. *)
Theorem save_load_roundtrip (env : Env) (a : AppState) :
  forallb schedule_storable a.(schedules) = true ->
  Z.of_nat (length a.(schedules)) < 2 ^ 64 ->
  let b := app_default env (save_data a).(ini_file) in
  map config b.(schedules) = map config a.(schedules) /\
  Forall (fun s => s.(is_running) = false) b.(schedules).
Proof.
  intros Hok Hlen. simpl.
  unfold app_default, load_data, render_ini. simpl ini_file. cbv iota.
  change ("Count" ++ nl ++ ?X)%string with (String "C"%char (String "o"%char (String "u"%char
           (String "n"%char (String "t"%char (String "010"%char X)))))).
  cbn [RStr.read_line Ascii.eqb Bool.eqb].
  rewrite read_line_nl_char by
    (unfold Num.show_usize, Num.show_N; apply has_char_uint).
  rewrite parse_usize_show by exact Hlen. simpl unwrap_or.
  match goal with
  | |- context [load_records env _ _ ?st] =>
      destruct (load_records_render env (schedules a) st Hok) as [H1 H2]
  end.
  simpl. split.
  - exact H1.
  - apply Forall_forall. intros x Hx. destruct (H2 x Hx) as [[] | Hr]. exact Hr.
Qed.

Lemma save_load_roundtrip_witness :
  let a := set_schedules [mkSchedule "/a" "/b" 3 "*.log" "node_modules" true 5 true 0;
                          mkSchedule "/c" "/d" (-7) "" "" false 9 false 1]
             (app_default env0 None) in
  forallb schedule_storable a.(schedules) = true /\
  Z.of_nat (length a.(schedules)) < 2 ^ 64 /\
  map config (app_default env0 (save_data a).(ini_file)).(schedules) = map config a.(schedules).
Proof.
  intros a.
  assert (H1 : forallb schedule_storable a.(schedules) = true) by (vm_compute; reflexivity).
  assert (H2 : Z.of_nat (length a.(schedules)) < 2 ^ 64) by (simpl; lia).
  split; [exact H1 | split; [exact H2 |]].
  apply (save_load_roundtrip env0 a H1 H2).
Defined.

(** *** Copy engine *)

Lemma node_ind_nested (P : Node -> Prop) (Q : list (io_result (string * Node)) -> Prop) :
  (forall e, P (NFile e)) ->
  (forall e, P (NDir (IoErr e))) ->
  (forall es, Q es -> P (NDir (IoOk es))) ->
  P NOther ->
  Q [] ->
  (forall e es, Q (IoErr e :: es)) ->
  (forall nm c es, P c -> Q es -> Q (IoOk (nm, c) :: es)) ->
  forall n, P n.
Proof.
  intros HF HE HD HO Q0 QE QC.
  fix F 1. intros [e | [es | e] | ].
  - apply HF.
  - apply HD.
    refine ((fix G (es : list (io_result (string * Node))) : Q es :=
               match es with
               | [] => Q0
               | IoErr e :: r => QE e r
               | IoOk (nm, c) :: r => QC nm c r (F c) (G r)
               end) es).
  - apply HE.
  - apply HO.
Qed.

Definition fail_shape (res : list Event * io_result unit) : Prop :=
  let (tr, r) := res in
  match r with
  | IoOk _ => no_fail tr
  | IoErr _ => exists pre f, tr = (pre ++ [f])%list /\ is_struct_fail f = true /\ no_fail pre
  end.

Lemma no_fail_app (a b : list Event) : no_fail (a ++ b) <-> no_fail a /\ no_fail b.
Proof. unfold no_fail. rewrite forallb_app. apply andb_true_iff. Qed.

Lemma no_fail_In (l : list Event) (f : Event) :
  no_fail l -> In f l -> is_struct_fail f = false.
Proof.
  unfold no_fail. intros H Hin. rewrite forallb_forall in H.
  apply negb_true_iff. apply H. exact Hin.
Qed.

Lemma fail_shape_cons (l : list Event) (res : list Event * io_result unit) :
  no_fail l -> fail_shape res -> fail_shape ((l ++ fst res)%list, snd res).
Proof.
  destruct res as [tr [u | e]]; simpl; intros Hl H.
  - apply no_fail_app. split; assumption.
  - destruct H as [pre [f [-> [Hf Hp]]]].
    exists (l ++ pre)%list, f. rewrite app_assoc. split; [reflexivity|]. split; [exact Hf|].
    apply no_fail_app. split; assumption.
Qed.

Lemma copy_entries_cons (rec : string -> Node -> string -> list Event * io_result unit)
    (src dest : string) (se sf : list string) (nm : string) (c : Node)
    (es : list (io_result (string * Node))) :
  copy_entries rec src dest se sf (IoOk (nm, c) :: es) =
  match c with
  | NDir _ =>
      if skip_by_folder sf nm then copy_entries rec src dest se sf es
      else
        let (tr, r) := rec (path_join src nm) c (path_join dest nm) in
        match r with
        | IoErr e => (tr, IoErr e)
        | IoOk _ =>
            let (tr', r') := copy_entries rec src dest se sf es in ((tr ++ tr')%list, r')
        end
  | NFile err =>
      if skip_by_ext se nm then copy_entries rec src dest se sf es
      else
        let ev := match err with
                  | None => [EvCopy (path_join src nm) (path_join dest nm) true]
                  | Some e => [EvCopy (path_join src nm) (path_join dest nm) false;
                               EvSend (Log (copy_fail_msg (path_join src nm)
                                                          (path_join dest nm) e))]
                  end in
        let (tr', r') := copy_entries rec src dest se sf es in ((ev ++ tr')%list, r')
  | NOther => copy_entries rec src dest se sf es
  end.
Proof. reflexivity. Qed.

(** Every run of [copy_recursive] either succeeds with no failed directory
    operation, or stops right after its first one. *)
Lemma copy_recursive_fail_shape (fs : FsEnv) (se sf : list string) (n : Node) :
  forall src dest, fail_shape (copy_recursive fs src n dest se sf).
Proof.
  set (rec := fun p c d => copy_recursive fs p c d se sf).
  induction n using node_ind_nested with
    (Q := fun es => forall src dest, fail_shape (copy_entries rec src dest se sf es));
    intros src dest.
  - simpl. destruct (fs_create_dir_all fs dest).
    + exists [], (EvMkdir dest false). repeat split.
    + exists [EvMkdir dest true], (EvReadDir src false). repeat split.
  - simpl. destruct (fs_create_dir_all fs dest).
    + exists [], (EvMkdir dest false). repeat split.
    + exists [EvMkdir dest true], (EvReadDir src false). repeat split.
  - simpl. destruct (fs_create_dir_all fs dest).
    + exists [], (EvMkdir dest false). repeat split.
    + specialize (IHn src dest). fold rec.
      destruct (copy_entries rec src dest se sf es) as [tr r] eqn:E.
      apply (fail_shape_cons [EvMkdir dest true; EvReadDir src true] (tr, r)); [reflexivity | exact IHn].
  - simpl. destruct (fs_create_dir_all fs dest).
    + exists [], (EvMkdir dest false). repeat split.
    + exists [EvMkdir dest true], (EvReadDir src false). repeat split.
  - reflexivity.
  - exists [], (EvEntryErr src). repeat split.
  - simpl. destruct n as [err | x | ].
    + destruct (skip_by_ext se nm); [apply IHn0|].
      specialize (IHn0 src dest).
      destruct (copy_entries rec src dest se sf es) as [tr' r'].
      apply (fail_shape_cons _ (tr', r')); [| exact IHn0].
      destruct err; reflexivity.
    + destruct (skip_by_folder sf nm); [apply IHn0|].
      specialize (IHn (path_join src nm) (path_join dest nm)). unfold rec at 1.
      destruct (copy_recursive fs (path_join src nm) (NDir x) (path_join dest nm) se sf)
        as [tr [u | e]].
      * specialize (IHn0 src dest).
        destruct (copy_entries rec src dest se sf es) as [tr' r'].
        apply (fail_shape_cons tr (tr', r')); [exact IHn | exact IHn0].
      * exact IHn.
    + apply IHn0.
Qed.

Lemma normalize_app (a b : list Event) :
  normalize (a ++ b) = (normalize a ++ normalize b)%list.
Proof. unfold normalize. apply flat_map_app. Qed.

Lemma normalize_idem (a : list Event) : normalize (normalize a) = normalize a.
Proof.
  induction a as [|e a IH]; [reflexivity|].
  change (e :: a) with ([e] ++ a)%list. rewrite !normalize_app, IH.
  destruct e as [| | | p q ok | | | [m | i ok]]; reflexivity.
Qed.

Lemma warned_app : forall a b : list Event,
  copy_failures_warned a -> copy_failures_warned b -> copy_failures_warned (a ++ b).
Proof.
  fix IH 1. intros [|e a] b Ha Hb; [exact Hb|].
  destruct e as [p ok | p ok | p | p q [|] | p | z | m]; simpl in *;
    try (apply IH; assumption).
  destruct a as [|e' a']; [contradiction|].
  destruct e' as [p' ok' | p' ok' | p' | p' q' ok' | p' | z' | [m | i ok']]; try contradiction.
  simpl. destruct Ha as [He Ha]. split; [exact He | apply IH; assumption].
Qed.

(** Running on [succeed_all n] gives the trace with copies read as
    successful and warnings dropped; every actual failed copy is warned. *)
Lemma copy_recursive_succeed_all (fs : FsEnv) (se sf : list string) (n : Node) :
  forall src dest,
  let (tr, r) := copy_recursive fs src n dest se sf in
  copy_recursive fs src (succeed_all n) dest se sf = (normalize tr, r) /\
  copy_failures_warned tr.
Proof.
  set (rec := fun p c d => copy_recursive fs p c d se sf).
  induction n using node_ind_nested with
    (Q := fun es => forall src dest,
       let (tr, r) := copy_entries rec src dest se sf es in
       copy_entries rec src dest se sf (map_entries succeed_all es) = (normalize tr, r) /\
       copy_failures_warned tr);
    intros src dest.
  - simpl. destruct (fs_create_dir_all fs dest); split; first [reflexivity | exact I].
  - simpl. destruct (fs_create_dir_all fs dest); split; first [reflexivity | exact I].
  - simpl. destruct (fs_create_dir_all fs dest); [split; first [reflexivity | exact I]|].
    specialize (IHn src dest). fold rec.
    destruct (copy_entries rec src dest se sf es) as [tr r].
    destruct IHn as [-> Hw]. split; [reflexivity | exact Hw].
  - simpl. destruct (fs_create_dir_all fs dest); split; first [reflexivity | exact I].
  - split; first [reflexivity | exact I].
  - split; first [reflexivity | exact I].
  - change (map_entries succeed_all (IoOk (nm, n) :: es))
      with (IoOk (nm, succeed_all n) :: map_entries succeed_all es).
    rewrite !copy_entries_cons.
    specialize (IHn0 src dest).
    destruct n as [err | x | ].
    + simpl succeed_all. destruct (skip_by_ext se nm); [exact IHn0|].
      destruct (copy_entries rec src dest se sf es) as [tr' r'].
      destruct IHn0 as [-> Hw]. split.
      * rewrite normalize_app. destruct err; reflexivity.
      * destruct err; simpl; [split; [eexists; reflexivity | exact Hw] | exact Hw].
    + assert (Hd : exists y, succeed_all (NDir x) = NDir y)
        by (destruct x; eexists; reflexivity).
      destruct Hd as [y Hy]. rewrite Hy, <- Hy.
      destruct (skip_by_folder sf nm); [exact IHn0|].
      specialize (IHn (path_join src nm) (path_join dest nm)). unfold rec.
      destruct (copy_recursive fs (path_join src nm) (NDir x) (path_join dest nm) se sf)
        as [tr [u | e]].
      * destruct IHn as [-> Hw]. fold rec.
        destruct (copy_entries rec src dest se sf es) as [tr' r'].
        destruct IHn0 as [-> Hw']. split.
        -- rewrite normalize_app. reflexivity.
        -- apply warned_app; assumption.
      * destruct IHn as [-> Hw]. split; [reflexivity | exact Hw].
    + exact IHn0.
Qed.

(** [copy_recursive] reads only [fs_create_dir_all] of its environment. *)
Lemma copy_recursive_env (fs fs' : FsEnv) (se sf : list string) (n : Node) :
  fs_create_dir_all fs = fs_create_dir_all fs' ->
  forall src dest, copy_recursive fs src n dest se sf = copy_recursive fs' src n dest se sf.
Proof.
  intros Henv.
  set (rec := fun p c d => copy_recursive fs p c d se sf).
  set (rec' := fun p c d => copy_recursive fs' p c d se sf).
  induction n using node_ind_nested with
    (Q := fun es => forall src dest,
       copy_entries rec src dest se sf es = copy_entries rec' src dest se sf es);
    intros src dest; try (simpl; try rewrite Henv; reflexivity).
  - simpl. rewrite Henv. destruct (fs_create_dir_all fs' dest); [reflexivity|].
    fold rec rec'. rewrite IHn. reflexivity.
  - rewrite !copy_entries_cons. destruct n as [err | x | ]; try (rewrite IHn0; reflexivity).
    rewrite IHn0. unfold rec, rec'. cbv beta. rewrite IHn. reflexivity.
Qed.

Lemma zip_events_with_tree (t : Node) (fs : FsEnv) (d : string) :
  zip_events (with_tree t fs) d = zip_events fs d.
Proof. reflexivity. Qed.

Lemma warned_zip_events (fs : FsEnv) (d : string) :
  copy_failures_warned (zip_events fs d).
Proof.
  unfold zip_events. cbv zeta.
  destruct (fs_exists fs (d ++ "_" ++ fs_stamp fs ++ ".zip")); exact I.
Qed.

(** C5: when the source exists and the run's trace has no failed directory
    creation or listing, the run completes with [BackupFinished idx true];
    every failed file copy is followed by its warning, and the run visits
    exactly what it visits when every copy succeeds. *)
Theorem file_copy_failures_are_warnings (fs : FsEnv) (w : Worker) :
  fs.(fs_exists) w.(w_sched).(source_dir) = true ->
  no_fail (fst (execute_backup fs w.(w_sched))) ->
  snd (execute_backup fs w.(w_sched)) = true /\
  (exists tr, backup_thread fs w = (tr ++ [EvSend (BackupFinished w.(w_idx) true)])%list) /\
  copy_failures_warned (fst (execute_backup fs w.(w_sched))) /\
  normalize (fst (execute_backup fs w.(w_sched))) =
  normalize (fst (execute_backup (with_tree (succeed_all fs.(fs_tree)) fs) w.(w_sched))).
Proof.
  destruct w as [s idx]. intros Hs Hn. unfold backup_thread. cbn [w_sched w_idx] in *.
  unfold execute_backup in *. rewrite zip_events_with_tree.
  rewrite (copy_recursive_env (with_tree _ fs) fs) by reflexivity.
  cbn [with_tree fs_exists fs_create_dir_all fs_tree].
  rewrite Hs in *. cbn [negb] in *.
  set (se := parse_skip_tokens _) in *. set (sf := skip_folder_tokens _) in *.
  destruct (if fs_exists fs (dest_dir s) then _ else _) as [tr1 | e] eqn:Epre.
  2: { discriminate Hn. }
  assert (Ht1 : tr1 = [] \/ tr1 = [EvMkdir (dest_dir s) true]).
  { destruct (fs_exists fs (dest_dir s)); [left; congruence|].
    destruct (fs_create_dir_all fs (dest_dir s)); [discriminate | right; congruence]. }
  pose proof (copy_recursive_fail_shape fs se sf (fs_tree fs) (source_dir s) (dest_dir s))
    as Hsh.
  pose proof (copy_recursive_succeed_all fs se sf (fs_tree fs) (source_dir s) (dest_dir s))
    as Hsa.
  destruct (copy_recursive fs (source_dir s) (fs_tree fs) (dest_dir s) se sf) as [tr3 r].
  destruct Hsa as [-> Hw]. destruct r as [u | e].
  - split; [reflexivity|]. split; [eexists; reflexivity|]. split.
    + cbn [fst]. repeat apply warned_app; try assumption.
      * destruct Ht1 as [-> | ->]; exact I.
      * exact I.
      * destruct (use_zip s); [apply warned_zip_events | exact I].
      * exact I.
    + cbn [fst]. rewrite !normalize_app, normalize_idem. reflexivity.
  - exfalso. destruct Hsh as [pre [f [-> [Hf _]]]].
    cbn [fst] in Hn. apply no_fail_app in Hn as [_ Hn].
    apply no_fail_app in Hn as [Hn _]. apply no_fail_app in Hn as [_ Hn].
    unfold no_fail in Hn. simpl in Hn. rewrite Hf in Hn. discriminate.
Qed.

Lemma file_copy_failures_are_warnings_witness :
  let fs := fs0 (NDir (IoOk [IoOk ("a.txt", NFile None); IoOk ("b.txt", NFile (Some "denied"));
                             IoOk ("sub", NDir (IoOk [IoOk ("c.txt", NFile None)]))])) in
  let w := mkWorker (mkSchedule "/src" "/dst" 24 "" "" false 0 true 0) 0 in
  fs.(fs_exists) w.(w_sched).(source_dir) = true /\
  no_fail (fst (execute_backup fs w.(w_sched))) /\
  (snd (execute_backup fs w.(w_sched)) = true /\
   (exists tr, backup_thread fs w = (tr ++ [EvSend (BackupFinished w.(w_idx) true)])%list) /\
   copy_failures_warned (fst (execute_backup fs w.(w_sched))) /\
   normalize (fst (execute_backup fs w.(w_sched))) =
   normalize (fst (execute_backup (with_tree (succeed_all fs.(fs_tree)) fs) w.(w_sched)))).
Proof.
  intros fs w.
  assert (H1 : fs.(fs_exists) w.(w_sched).(source_dir) = true) by reflexivity.
  assert (H2 : no_fail (fst (execute_backup fs w.(w_sched)))) by (vm_compute; reflexivity).
  split; [exact H1 | split; [exact H2 | ]].
  exact (file_copy_failures_are_warnings fs w H1 H2).
Defined.

Lemma dir_fail_struct (f : Event) : dir_fail f = true -> is_struct_fail f = true.
Proof. destruct f as [p [|] | p [|] | p | p q ok | p | z | m]; simpl; congruence. Qed.

Lemma no_fail_zip_events (fs : FsEnv) (d : string) : no_fail (zip_events fs d).
Proof.
  unfold zip_events. cbv zeta.
  destruct (fs_exists fs (d ++ "_" ++ fs_stamp fs ++ ".zip")); reflexivity.
Qed.

(** C6: when a destination directory cannot be created, a source
    directory cannot be listed, or an entry of a listing cannot be read, the
    run stops at that failure: it is the last operation of the run, followed
    only by the log of its error and [BackupFinished idx false]. *)
Theorem dir_failure_aborts_run (fs : FsEnv) (w : Worker) :
  (exists f, In f (fst (execute_backup fs w.(w_sched))) /\ dir_fail f = true) ->
  exists pre f msg,
    dir_fail f = true /\ no_fail pre /\
    (exists e, msg = "Copy failed: " ++ e \/ msg = "Failed to create destination: " ++ e) /\
    backup_thread fs w =
    (pre ++ [f; EvSend (Log msg); EvSend (BackupFinished w.(w_idx) false)])%list.
Proof.
  destruct w as [s idx]. intros [f [Hin Hd]].
  unfold backup_thread. cbn [w_sched w_idx] in *. unfold execute_backup in *.
  destruct (fs_exists fs (source_dir s)) eqn:Hs; cbn [negb] in *.
  2: { destruct Hin as [<- | []]. discriminate Hd. }
  set (se := parse_skip_tokens _) in *. set (sf := skip_folder_tokens _) in *.
  destruct (if fs_exists fs (dest_dir s) then _ else _) as [tr1 | e] eqn:Epre.
  2: { exists [], (EvMkdir (dest_dir s) false), ("Failed to create destination: " ++ e).
       split; [reflexivity|]. split; [reflexivity|]. split; [exists e; right; reflexivity|].
       reflexivity. }
  assert (Ht1 : no_fail tr1).
  { destruct (fs_exists fs (dest_dir s)); [injection Epre as <-; reflexivity|].
    destruct (fs_create_dir_all fs (dest_dir s)); [discriminate | injection Epre as <-].
    reflexivity. }
  pose proof (copy_recursive_fail_shape fs se sf (fs_tree fs) (source_dir s) (dest_dir s))
    as Hsh.
  destruct (copy_recursive fs (source_dir s) (fs_tree fs) (dest_dir s) se sf) as [tr3 r].
  pose proof (dir_fail_struct f Hd) as Hf.
  destruct r as [u | e].
  - exfalso. cbn [fst fail_shape] in Hin, Hsh.
    assert (Hall : no_fail ((tr1 ++ [EvSend (Log (source_dir s ++ " backup started"))]) ++
                     tr3 ++ (if use_zip s then zip_events fs (dest_dir s) else []) ++
                     [EvSend (Log (source_dir s ++ " backup completed"))])%list).
    { repeat (apply no_fail_app; split); try assumption; try reflexivity.
      destruct (use_zip s); [apply no_fail_zip_events | reflexivity]. }
    rewrite (no_fail_In _ _ Hall Hin) in Hf. discriminate.
  - destruct Hsh as [pre [f' [-> [Hf' Hpre]]]].
    exists (tr1 ++ [EvSend (Log (source_dir s ++ " backup started"))] ++ pre)%list, f',
      ("Copy failed: " ++ e).
    split.
    + cbn [fst] in Hin. rewrite !in_app_iff in Hin. cbn [In] in Hin.
      repeat (destruct Hin as [Hin | Hin]); try contradiction;
        first [ subst f; first [exact Hd | discriminate Hd]
              | rewrite (no_fail_In _ _ Ht1 Hin) in Hf; discriminate
              | rewrite (no_fail_In _ _ Hpre Hin) in Hf; discriminate ].
    + split; [apply no_fail_app; split; [exact Ht1 | apply no_fail_app; split; [reflexivity | exact Hpre]]|].
      split; [exists e; left; reflexivity|].
      cbn [fst snd]. rewrite <- !app_assoc. reflexivity.
Qed.

Lemma dir_failure_aborts_run_witness :
  let fs := fs0 (NDir (IoOk [IoOk ("a.txt", NFile None); IoErr "EIO";
                             IoOk ("z.txt", NFile None)])) in
  let w := mkWorker (mkSchedule "/src" "/dst" 24 "" "" false 0 true 0) 1 in
  (exists f, In f (fst (execute_backup fs w.(w_sched))) /\ dir_fail f = true) /\
  exists pre f msg,
    dir_fail f = true /\ no_fail pre /\
    (exists e, msg = "Copy failed: " ++ e \/ msg = "Failed to create destination: " ++ e) /\
    backup_thread fs w =
    (pre ++ [f; EvSend (Log msg); EvSend (BackupFinished w.(w_idx) false)])%list.
Proof.
  intros fs w.
  assert (H : exists f, In f (fst (execute_backup fs w.(w_sched))) /\ dir_fail f = true).
  { exists (EvEntryErr "/src"). split; [|reflexivity].
    vm_compute. repeat first [left; reflexivity | right]. }
  split; [exact H | exact (dir_failure_aborts_run fs w H)].
Defined.

(** C7: with archiving enabled and a successful copy phase, the run ends
    with the archiver call, its status log, the completion log and
    [BackupFinished idx true], whatever the archiver's outcome; a failed
    archiver gives a log line different from the success line. *)
Theorem zip_failure_keeps_success (fs : FsEnv) (w : Worker) :
  let s := w.(w_sched) in
  let zn := (s.(dest_dir) ++ "_" ++ fs.(fs_stamp) ++ ".zip")%string in
  fs.(fs_exists) s.(source_dir) = true ->
  (fs.(fs_exists) s.(dest_dir) = true \/ fs.(fs_create_dir_all) s.(dest_dir) = None) ->
  snd (copy_recursive fs s.(source_dir) fs.(fs_tree) s.(dest_dir)
         (parse_skip_tokens s.(skip_file_exts_label))
         (skip_folder_tokens s.(skip_folders_label))) = IoOk tt ->
  s.(use_zip) = true ->
  (exists pre, backup_thread fs w =
     (pre ++ [EvZip zn; EvSend (Log (zip_status_msg fs.(fs_zip) zn));
              EvSend (Log (s.(source_dir) ++ " backup completed"));
              EvSend (BackupFinished w.(w_idx) true)])%list) /\
  (fs.(fs_zip) <> ZipSuccess -> zip_status_msg fs.(fs_zip) zn <> "Zipped to " ++ zn).
Proof.
  destruct w as [s idx]. cbv zeta. cbn [w_sched w_idx]. intros Hs Hd Hc Hz. split.
  - unfold backup_thread, execute_backup. cbn [w_sched w_idx]. rewrite Hs. cbn [negb].
    assert (Hpre : exists tr1,
      (if fs_exists fs (dest_dir s) then IoOk []
       else match fs_create_dir_all fs (dest_dir s) with
            | Some e => IoErr e
            | None => IoOk [EvMkdir (dest_dir s) true]
            end) = IoOk tr1).
    { destruct Hd as [Hd | Hd]; rewrite ?Hd; [eexists; reflexivity|].
      destruct (fs_exists fs (dest_dir s)); eexists; reflexivity. }
    destruct Hpre as [tr1 ->].
    destruct (copy_recursive fs (source_dir s) (fs_tree fs) (dest_dir s) _ _) as [tr3 r].
    cbn [snd] in Hc. subst r. rewrite Hz. unfold zip_events. cbv zeta.
    exists ((tr1 ++ [EvSend (Log (source_dir s ++ " backup started"))]) ++ tr3 ++
            (if fs_exists fs (dest_dir s ++ "_" ++ fs_stamp fs ++ ".zip")
             then [EvRemove (dest_dir s ++ "_" ++ fs_stamp fs ++ ".zip")] else []))%list.
    rewrite <- !app_assoc. reflexivity.
  - destruct (fs_zip fs) as [| st | e]; [contradiction | |]; intros _ H; discriminate H.
Qed.

Lemma zip_failure_keeps_success_witness :
  let fs := mkFsEnv (fun p => String.eqb p "/src" || String.eqb p "/dst") (fun _ => None)
              (NDir (IoOk [IoOk ("a.txt", NFile None)])) (ZipExit "2") "26101412" in
  let w := mkWorker (mkSchedule "/src" "/dst" 24 "" "" true 0 true 0) 0 in
  let s := w.(w_sched) in
  let zn := (s.(dest_dir) ++ "_" ++ fs.(fs_stamp) ++ ".zip")%string in
  fs.(fs_exists) s.(source_dir) = true /\
  (fs.(fs_exists) s.(dest_dir) = true \/ fs.(fs_create_dir_all) s.(dest_dir) = None) /\
  snd (copy_recursive fs s.(source_dir) fs.(fs_tree) s.(dest_dir)
         (parse_skip_tokens s.(skip_file_exts_label))
         (skip_folder_tokens s.(skip_folders_label))) = IoOk tt /\
  s.(use_zip) = true /\
  ((exists pre, backup_thread fs w =
     (pre ++ [EvZip zn; EvSend (Log (zip_status_msg fs.(fs_zip) zn));
              EvSend (Log (s.(source_dir) ++ " backup completed"));
              EvSend (BackupFinished w.(w_idx) true)])%list) /\
   (fs.(fs_zip) <> ZipSuccess -> zip_status_msg fs.(fs_zip) zn <> "Zipped to " ++ zn)).
Proof.
  intros fs w s zn.
  split; [reflexivity|]. split; [left; reflexivity|]. split; [vm_compute; reflexivity|].
  split; [reflexivity|].
  apply (zip_failure_keeps_success fs w); [reflexivity | left; reflexivity | vm_compute; reflexivity | reflexivity].
Defined.

(** *** Runs in flight *)

Lemma running_at_update (i j : nat) (f : Schedule -> Schedule) (l : list Schedule) :
  running_at i (update_nth j f l) =
  if Nat.eqb j i then
    match nth_error l i with Some s => (f s).(is_running) | None => false end
  else running_at i l.
Proof.
  unfold running_at. rewrite nth_error_update_nth.
  destruct (Nat.eqb j i); [destruct (nth_error l i)|]; reflexivity.
Qed.

Lemma map_ghost_update (j : nat) (f : Schedule -> Schedule) (l : list Schedule) :
  (forall s, (f s).(ghost_id) = s.(ghost_id)) ->
  map ghost_id (update_nth j f l) = map ghost_id l.
Proof.
  intros Hf. revert j; induction l as [|h t IH]; intros [|j]; simpl; auto.
  - rewrite Hf. reflexivity.
  - rewrite IH. reflexivity.
Qed.

Lemma ghost_update (j : nat) (f : Schedule -> Schedule) (l : list Schedule) (i : nat)
    (s : Schedule) :
  (forall s, (f s).(ghost_id) = s.(ghost_id)) ->
  nth_error l i = Some s ->
  exists s', nth_error (update_nth j f l) i = Some s' /\ s'.(ghost_id) = s.(ghost_id).
Proof.
  intros Hf Hs. rewrite nth_error_update_nth, Hs.
  destruct (Nat.eqb j i); simpl; eexists; split; try reflexivity; apply Hf.
Qed.

Lemma run_inv_same (a a' : AppState) (ws : list Worker) (q : list AppMsg) :
  a'.(schedules) = a.(schedules) -> a'.(next_id) = a.(next_id) ->
  run_inv (mkSys a ws q) -> run_inv (mkSys a' ws q).
Proof.
  intros Hs Hn [Hc Hg Hd Hf]. constructor; cbn [app inflight queue] in *;
    rewrite ?Hs, ?Hn; assumption.
Qed.

(** An update of one job that keeps its running flag and identity. *)
Lemma run_inv_update (a a' : AppState) (ws : list Worker) (q : list AppMsg)
    (j : nat) (f : Schedule -> Schedule) :
  (forall s, (f s).(ghost_id) = s.(ghost_id)) ->
  (forall s, (f s).(is_running) = s.(is_running)) ->
  a'.(schedules) = update_nth j f a.(schedules) -> a'.(next_id) = a.(next_id) ->
  run_inv (mkSys a ws q) -> run_inv (mkSys a' ws q).
Proof.
  intros Hfg Hfr Hs Hn [Hc Hg Hd Hf]. cbn [app inflight queue] in *.
  constructor; cbn [app inflight queue]; rewrite ?Hs, ?Hn.
  - intros i. rewrite running_at_update, Hc.
    destruct (Nat.eqb j i); [|reflexivity].
    unfold running_at. destruct (nth_error (schedules a) i); [rewrite Hfr|]; reflexivity.
  - intros w Hw. destruct (Hg w Hw) as [s [Hs1 Hs2]].
    destruct (ghost_update j f _ _ _ Hfg Hs1) as [s' [H1 H2]].
    exists s'. split; [exact H1 | congruence].
  - rewrite map_ghost_update by exact Hfg. exact Hd.
  - rewrite map_ghost_update by exact Hfg. exact Hf.
Qed.

Lemma running_at_app_idle (i : nat) (l : list Schedule) (s : Schedule) :
  s.(is_running) = false -> running_at i (l ++ [s])%list = running_at i l.
Proof.
  intros Hs. unfold running_at.
  destruct (Nat.lt_ge_cases i (length l)) as [Hi | Hi].
  - rewrite nth_error_app1 by exact Hi. reflexivity.
  - rewrite nth_error_app2 by exact Hi.
    rewrite (proj2 (nth_error_None l i)) by exact Hi.
    destruct (i - length l)%nat as [|k]; simpl; [exact Hs|].
    destruct k; reflexivity.
Qed.

Lemma NoDup_snoc {A} (l : list A) (x : A) : NoDup l -> ~ In x l -> NoDup (l ++ [x])%list.
Proof.
  induction l as [|h t IH]; intros Hd Hx; simpl.
  - constructor; [intros [] | constructor].
  - inversion Hd as [|? ? Hh Ht]; subst. constructor.
    + intros Hin. apply in_app_or in Hin as [Hin | [<- | []]].
      * contradiction.
      * apply Hx. left. reflexivity.
    + apply IH; [exact Ht | intros Hin; apply Hx; right; exact Hin].
Qed.

(** A new idle job with a fresh identity appended at the end. *)
Lemma run_inv_append (a a' : AppState) (ws : list Worker) (q : list AppMsg) (s : Schedule) :
  s.(is_running) = false -> s.(ghost_id) = a.(next_id) ->
  a'.(schedules) = (a.(schedules) ++ [s])%list -> a'.(next_id) = S a.(next_id) ->
  run_inv (mkSys a ws q) -> run_inv (mkSys a' ws q).
Proof.
  intros Hr Hgs Hs Hn [Hc Hg Hd Hf]. cbn [app inflight queue] in *.
  constructor; cbn [app inflight queue]; rewrite ?Hs, ?Hn.
  - intros i. rewrite running_at_app_idle by exact Hr. apply Hc.
  - intros w Hw. destruct (Hg w Hw) as [s0 [H1 H2]]. exists s0. split; [|exact H2].
    rewrite nth_error_app1; [exact H1|]. apply nth_error_Some. congruence.
  - rewrite map_app. apply NoDup_snoc; [exact Hd|]. simpl. rewrite Hgs.
    intros Hin. rewrite Forall_forall in Hf. specialize (Hf _ Hin). lia.
  - rewrite map_app. apply Forall_app. split.
    + eapply Forall_impl; [|exact Hf]. simpl. intros g Hlt. lia.
    + simpl. constructor; [rewrite Hgs; lia | constructor].
Qed.

Lemma launched_cons (i : nat) (w : Worker) (ws : list Worker) :
  launched i (w :: ws) = ((if Nat.eqb w.(w_idx) i then 1 else 0) + launched i ws)%nat.
Proof. unfold launched. simpl. destruct (Nat.eqb (w_idx w) i); reflexivity. Qed.

(** The launch of [spawn_backup] on an idle job. *)
Lemma run_inv_spawn (env : Env) (idx : nat) (a : AppState) (ws : list Worker)
    (q : list AppMsg) (s : Schedule) :
  nth_error a.(schedules) idx = Some s -> s.(is_running) = false ->
  run_inv (mkSys a ws q) ->
  run_inv (mkSys (fst (spawn_backup env idx a)) (ws ++ snd (spawn_backup env idx a))%list q).
Proof.
  intros Hs Hr [Hc Hg Hd Hf]. cbn [app inflight queue] in *.
  rewrite (spawn_backup_workers env idx a s Hs).
  assert (Hn : (fst (spawn_backup env idx a)).(next_id) = a.(next_id))
    by (unfold spawn_backup; rewrite Hs; reflexivity).
  assert (Hgh : forall s, (set_running true s).(ghost_id) = s.(ghost_id)) by reflexivity.
  constructor; cbn [app inflight queue]; rewrite ?Hn, ?spawn_backup_schedules.
  - intros i. rewrite launched_app, launched_cons, running_at_update. cbn [w_idx].
    unfold launched at 2. cbn [filter length].
    destruct (Nat.eqb idx i) eqn:E.
    + apply Nat.eqb_eq in E. subst i. rewrite Hs. specialize (Hc idx).
      unfold running_at in Hc. rewrite Hs, Hr in Hc. simpl. lia.
    + rewrite <- Hc. lia.
  - intros w Hw. apply in_app_or in Hw as [Hw | [<- | []]].
    + destruct (Hg w Hw) as [s0 [H1 H2]].
      destruct (ghost_update idx (set_running true) _ _ _ Hgh H1) as [s' [H3 H4]].
      exists s'. split; [exact H3 | congruence].
    + cbn [w_idx w_sched]. rewrite nth_error_update_nth, Nat.eqb_refl, Hs.
      eexists; split; reflexivity.
  - rewrite map_ghost_update by exact Hgh. exact Hd.
  - rewrite map_ghost_update by exact Hgh. exact Hf.
Qed.

Lemma pending_fin_cons (i : nat) (m : AppMsg) (q : list AppMsg) :
  pending_fin i (m :: q) =
  ((match m with BackupFinished j _ => if Nat.eqb j i then 1 else 0 | Log _ => 0 end)
   + pending_fin i q)%nat.
Proof.
  unfold pending_fin. simpl. destruct m as [|j ok]; [reflexivity|].
  destruct (Nat.eqb j i); reflexivity.
Qed.

Lemma pending_fin_app (i : nat) (q1 q2 : list AppMsg) :
  pending_fin i (q1 ++ q2) = (pending_fin i q1 + pending_fin i q2)%nat.
Proof. unfold pending_fin. rewrite filter_app, length_app. reflexivity. Qed.

(** One message of the drain loop. *)
Lemma run_inv_handle (env : Env) (a : AppState) (ws : list Worker) (m : AppMsg)
    (q : list AppMsg) :
  run_inv (mkSys a ws (m :: q)) -> run_inv (mkSys (handle_msg env a m) ws q).
Proof.
  intros [Hc Hg Hd Hf]. cbn [app inflight queue] in *.
  destruct m as [msg | j ok]; cbn [handle_msg].
  - apply (run_inv_same a); [reflexivity | reflexivity|].
    constructor; cbn [app inflight queue]; try assumption.
  - set (g := fun s => set_last_time (env_now env) (set_running false s)).
    assert (Hgh : forall s, (g s).(ghost_id) = s.(ghost_id)) by reflexivity.
    constructor; cbn [app inflight queue]; unfold log; cbn [set_logs set_schedules schedules next_id].
    + intros i. rewrite running_at_update. specialize (Hc i).
      rewrite pending_fin_cons in Hc.
      destruct (Nat.eqb j i) eqn:E.
      * unfold running_at in Hc. destruct (nth_error (schedules a) i) as [s|].
        -- destruct (is_running s); [cbn; lia | lia].
        -- lia.
      * lia.
    + intros w Hw. destruct (Hg w Hw) as [s0 [H1 H2]].
      destruct (ghost_update j g _ _ _ Hgh H1) as [s' [H3 H4]].
      exists s'. split; [exact H3 | congruence].
    + rewrite map_ghost_update by exact Hgh. exact Hd.
    + rewrite map_ghost_update by exact Hgh. exact Hf.
Qed.

Lemma run_inv_drain (env : Env) (q : list AppMsg) (a : AppState) (ws : list Worker) :
  run_inv (mkSys a ws q) -> run_inv (mkSys (drain env q a) ws []).
Proof.
  revert a; induction q as [|m q IH]; intros a H; [exact H|].
  unfold drain. cbn [fold_left]. apply IH. apply run_inv_handle. exact H.
Qed.

Lemma is_due_idle (now : Z) (s : Schedule) : is_due now s = true -> s.(is_running) = false.
Proof. unfold is_due. destruct (is_running s); [discriminate | reflexivity]. Qed.

Lemma run_inv_scan_loop (env : Env) (idxs : list nat) (a : AppState) (ws : list Worker)
    (q : list AppMsg) :
  run_inv (mkSys a ws q) ->
  run_inv (mkSys (fst (scan_loop env idxs a)) (ws ++ snd (scan_loop env idxs a))%list q).
Proof.
  revert a ws; induction idxs as [|i rest IH]; intros a ws H.
  - simpl. rewrite app_nil_r. exact H.
  - cbn [scan_loop].
    destruct (nth_error (schedules a) i) as [s|] eqn:Es;
      [destruct (is_due (env_now env) s) eqn:Ed|].
    + pose proof (run_inv_spawn env i a ws q s Es (is_due_idle _ _ Ed) H) as H1.
      destruct (spawn_backup env i a) as [a1 w1].
      specialize (IH a1 (ws ++ w1)%list H1).
      destruct (scan_loop env rest a1) as [a2 w2]. cbn [fst snd] in *.
      rewrite app_assoc. exact IH.
    + specialize (IH a ws H). destruct (scan_loop env rest a) as [a2 w2]. exact IH.
    + specialize (IH a ws H). destruct (scan_loop env rest a) as [a2 w2]. exact IH.
Qed.

Lemma run_inv_tick (env : Env) (b : bool) (a : AppState) (ws : list Worker) (q : list AppMsg) :
  run_inv (mkSys a ws q) ->
  run_inv (mkSys (fst (tick env b q a)) (ws ++ snd (tick env b q a))%list []).
Proof.
  intros H. apply (run_inv_drain env) in H. unfold tick.
  destruct b.
  - apply run_inv_scan_loop. exact H.
  - cbn [fst snd]. rewrite app_nil_r. exact H.
Qed.

Lemma launched_remove_at (i k : nat) (ws : list Worker) (w : Worker) :
  nth_error ws k = Some w ->
  launched i ws = ((if Nat.eqb w.(w_idx) i then 1 else 0) + launched i (remove_at k ws))%nat.
Proof.
  revert k; induction ws as [|h t IH]; intros [|k] Hk; try discriminate; simpl in Hk.
  - injection Hk as <-. rewrite launched_cons. reflexivity.
  - cbn [remove_at]. rewrite !launched_cons, (IH k Hk). lia.
Qed.

Lemma In_remove_at {A} (k : nat) (l : list A) (x : A) : In x (remove_at k l) -> In x l.
Proof.
  revert k; induction l as [|h t IH]; intros [|k] H; simpl in *; auto.
  destruct H as [H | H]; [left; exact H | right; eapply IH; exact H].
Qed.

Lemma run_inv_worker_log (a : AppState) (ws : list Worker) (q : list AppMsg) (m : string) :
  run_inv (mkSys a ws q) -> run_inv (mkSys a ws (q ++ [Log m])%list).
Proof.
  intros [Hc Hg Hd Hf]. constructor; cbn [app inflight queue] in *; try assumption.
  intros i. rewrite pending_fin_app, <- Hc. unfold pending_fin at 2. simpl. lia.
Qed.

Lemma run_inv_worker_done (a : AppState) (ws : list Worker) (q : list AppMsg) (k : nat)
    (w : Worker) (ok : bool) :
  nth_error ws k = Some w ->
  run_inv (mkSys a ws q) ->
  run_inv (mkSys a (remove_at k ws) (q ++ [BackupFinished w.(w_idx) ok])%list).
Proof.
  intros Hk [Hc Hg Hd Hf]. constructor; cbn [app inflight queue] in *; try assumption.
  - intros i. rewrite <- Hc, (launched_remove_at i k ws w Hk), pending_fin_app.
    unfold pending_fin at 2. simpl. destruct (Nat.eqb (w_idx w) i); simpl; lia.
  - intros w' Hw'. apply Hg. eapply In_remove_at. exact Hw'.
Qed.

Lemma firstn_skipn_update {A} (i : nat) (f : A -> A) (l : list A) (x : A) :
  nth_error l i = Some x -> (firstn i l ++ f x :: skipn (S i) l)%list = update_nth i f l.
Proof.
  revert i; induction l as [|h t IH]; intros [|i] H; simpl in *; try discriminate.
  - injection H as ->. reflexivity.
  - rewrite IH by exact H. reflexivity.
Qed.

Lemma action_add_cases (env : Env) (a : AppState) :
  ((action_add env a).(schedules) = a.(schedules) /\ (action_add env a).(next_id) = a.(next_id))
  \/ exists s, s.(is_running) = false /\ s.(ghost_id) = a.(next_id) /\
       (action_add env a).(schedules) = (a.(schedules) ++ [s])%list /\
       (action_add env a).(next_id) = S a.(next_id).
Proof.
  unfold action_add.
  destruct (RStr.is_empty (RStr.trim (input_source_dir a))); [left; split; reflexivity|].
  destruct (negb (env_exists env (input_source_dir a))); [left; split; reflexivity|].
  destruct (RStr.is_empty (RStr.trim (input_dest_dir a))); [left; split; reflexivity|].
  unfold ensure_dest.
  destruct (env_exists env (input_dest_dir a));
    [|destruct (env_create_dir_all env (input_dest_dir a)); [left; split; reflexivity|]].
  all: right; exists (Schedule_new env a.(next_id) a.(input_source_dir) a.(input_dest_dir)
                 (input_period a) a.(label_skip_files) a.(label_skip_folders) a.(input_use_zip));
    split; [|split; [|split]]; reflexivity.
Qed.

Lemma action_edit_cases (env : Env) (a a' : AppState) :
  action_edit env a = Some a' ->
  (a'.(schedules) = a.(schedules) /\ a'.(next_id) = a.(next_id))
  \/ exists idx f, (forall s, (f s).(ghost_id) = s.(ghost_id)) /\
       (forall s, (f s).(is_running) = s.(is_running)) /\
       a'.(schedules) = update_nth idx f a.(schedules) /\ a'.(next_id) = a.(next_id).
Proof.
  unfold action_edit.
  destruct (selected_index a) as [idx|]; [|intros H; injection H as <-; left; split; reflexivity].
  destruct (_ || _)%bool; [intros H; injection H as <-; left; split; reflexivity|].
  destruct (RStr.is_empty (RStr.trim (input_dest_dir a)));
    [intros H; injection H as <-; left; split; reflexivity|].
  unfold ensure_dest.
  destruct (env_exists env (input_dest_dir a));
    [|destruct (env_create_dir_all env (input_dest_dir a));
      [intros H; injection H as <-; left; split; reflexivity|]].
  all: destruct (nth_error (schedules a) idx) as [s|] eqn:E; intros H; [|discriminate];
    injection H as <-; right;
    exists idx, (set_config a.(input_source_dir) a.(input_dest_dir) (input_period a)
                   a.(label_skip_files) a.(label_skip_folders) a.(input_use_zip));
    split; [intros s0; reflexivity | split; [intros s0; reflexivity | split]];
    [cbn; apply firstn_skipn_update; exact E | reflexivity].
Qed.

Lemma action_run_now_cases (env : Env) (a : AppState) :
  (snd (action_run_now env a) = [] /\
   (fst (action_run_now env a)).(schedules) = a.(schedules) /\
   (fst (action_run_now env a)).(next_id) = a.(next_id))
  \/ exists idx s, nth_error a.(schedules) idx = Some s /\ s.(is_running) = false /\
       action_run_now env a = spawn_backup env idx a.
Proof.
  unfold action_run_now.
  destruct (selected_index a) as [idx|]; [|left; split; [|split]; reflexivity].
  destruct (nth_error (schedules a) idx) as [s|] eqn:E; [|left; split; [|split]; reflexivity].
  destruct (is_running s) eqn:Er; [left; split; [|split]; reflexivity|].
  right. exists idx, s. split; [exact E | split; [exact Er | reflexivity]].
Qed.

Lemma select_row_jobs (i : nat) (a : AppState) :
  (select_row i a).(schedules) = a.(schedules) /\ (select_row i a).(next_id) = a.(next_id).
Proof. unfold select_row. destruct (nth_error (schedules a) i); split; reflexivity. Qed.

Lemma parse_record_idle (env : Env) (id : nat) (line : string) (s : Schedule) :
  parse_record env id line = Some s -> s.(is_running) = false /\ s.(ghost_id) = id.
Proof.
  unfold parse_record. destruct (Nat.leb 3 _); intros H; [|discriminate].
  injection H as <-. split; reflexivity.
Qed.

Lemma run_inv_load_records (env : Env) (n : nat) (rest : string) (a : AppState) :
  run_inv (mkSys a [] []) -> run_inv (mkSys (load_records env n rest a) [] []).
Proof.
  revert rest a; induction n as [|n IH]; intros rest a H; [exact H|].
  cbn [load_records]. destruct (RStr.read_line rest) as [line rest'].
  destruct (parse_record env (next_id a) line) as [s|] eqn:E; apply IH; [|exact H].
  destruct (parse_record_idle _ _ _ _ E) as [Hr Hg].
  eapply run_inv_append; [exact Hr | exact Hg | reflexivity | reflexivity | exact H].
Qed.

Lemma run_inv_init (env : Env) (ini : option string) : run_inv (sys_init env ini).
Proof.
  assert (H0 : run_inv (mkSys (mkAppState [] None "" (default_backup_root env) "24" "" ""
                                  "" "" false [] ini 0) [] [])).
  { constructor; cbn [app inflight queue schedules next_id].
    - intros [|i]; reflexivity.
    - intros w [].
    - constructor.
    - constructor. }
  unfold sys_init, app_default, load_data. cbn [ini_file].
  destruct ini as [content|]; [|exact H0].
  destruct (RStr.read_line content) as [title rest].
  destruct (RStr.read_line rest) as [count_line rest'].
  eapply (run_inv_same (load_records env _ rest' _)); [reflexivity | reflexivity |].
  apply run_inv_load_records. exact H0.
Qed.

(** The running program without deletions keeps the bookkeeping of runs. *)
Lemma run_inv_reachable (st : Sys) : reachable no_delete st -> run_inv st.
Proof.
  induction 1 as [env ini | act st st' Hr IH Ha Hs]; [apply run_inv_init|].
  destruct Hs as [a ws q src dst per exts folders z | a ws q i Hi | env a ws q
                 | env a a' ws q He | env a ws q | env a ws q | env b a ws q
                 | a ws q k w m Hk | a ws q k w ok Hk].
  - apply (run_inv_same a); [reflexivity | reflexivity | exact IH].
  - destruct (select_row_jobs i a) as [H1 H2]. apply (run_inv_same a); assumption.
  - destruct (action_add_cases env a) as [[H1 H2] | [s [H1 [H2 [H3 H4]]]]].
    + apply (run_inv_same a); assumption.
    + apply (run_inv_append a _ ws q s); assumption.
  - destruct (action_edit_cases env a a' He) as [[H1 H2] | [idx [f [H1 [H2 [H3 H4]]]]]].
    + apply (run_inv_same a); assumption.
    + apply (run_inv_update a a' ws q idx f); assumption.
  - discriminate Ha.
  - destruct (action_run_now_cases env a) as [[H1 [H2 H3]] | [idx [s [H1 [H2 H3]]]]].
    + rewrite H1, app_nil_r. apply (run_inv_same a); assumption.
    + rewrite H3. apply (run_inv_spawn env idx a ws q s); assumption.
  - apply run_inv_tick. exact IH.
  - apply run_inv_worker_log. exact IH.
  - apply run_inv_worker_done; assumption.
Qed.

Lemma filter_length_le {A} (f g : A -> bool) (l : list A) :
  (forall x, In x l -> f x = true -> g x = true) ->
  (length (filter f l) <= length (filter g l))%nat.
Proof.
  induction l as [|h t IH]; intros H; [reflexivity|]. simpl.
  assert (IH' : (length (filter f t) <= length (filter g t))%nat)
    by (apply IH; intros x Hx; apply H; right; exact Hx).
  destruct (f h) eqn:Ef.
  - rewrite (H h (or_introl eq_refl) Ef). simpl. lia.
  - destruct (g h); simpl; lia.
Qed.

Lemma nodup_ghost_index (l : list Schedule) (i j : nat) (x y : Schedule) :
  NoDup (map ghost_id l) -> nth_error l i = Some x -> nth_error l j = Some y ->
  x.(ghost_id) = y.(ghost_id) -> i = j.
Proof.
  intros Hd Hi Hj Hxy. apply (proj1 (NoDup_nth_error _) Hd).
  - rewrite length_map. apply nth_error_Some. congruence.
  - rewrite !nth_error_map, Hi, Hj. simpl. congruence.
Qed.

Lemma run_inv_workers_of (st : Sys) (id : nat) :
  run_inv st -> (workers_of id st.(inflight) <= 1)%nat.
Proof.
  intros [Hc Hg Hd Hf]. unfold workers_of.
  destruct (filter (fun w => Nat.eqb w.(w_sched).(ghost_id) id) st.(inflight))
    as [|w0 rest] eqn:E; [simpl; lia|].
  assert (H0 : In w0 (filter (fun w => Nat.eqb w.(w_sched).(ghost_id) id) st.(inflight)))
    by (rewrite E; left; reflexivity).
  apply filter_In in H0 as [Hw0 Hid0]. apply Nat.eqb_eq in Hid0.
  destruct (Hg w0 Hw0) as [s0 [Hs0 Hgs0]].
  rewrite <- E.
  assert (Hle : (length (filter (fun w => Nat.eqb w.(w_sched).(ghost_id) id) st.(inflight))
                 <= launched w0.(w_idx) st.(inflight))%nat).
  { unfold launched. apply filter_length_le. intros w Hw Hid. apply Nat.eqb_eq in Hid.
    destruct (Hg w Hw) as [s [Hs Hgs]]. apply Nat.eqb_eq.
    eapply nodup_ghost_index; [exact Hd | exact Hs | exact Hs0 | congruence]. }
  specialize (Hc (w_idx w0)). destruct (running_at _ _); lia.
Qed.

(** C4 (code bug): deleting a job while it runs shifts the next job to
    its index; the completion of the deleted job's thread then clears the
    running flag of that next job, whose own thread is still in flight, and a
    second run of it can be started: two threads of the job with identity 1
    are in flight at once. *)
Lemma two_runs_of_one_job_after_delete :
  exists st, reachable any_action st /\ workers_of 1 st.(inflight) = 2%nat.
Proof.
  set (env := mkEnv (fun _ => true) (fun _ => None) 0 (Some "/home/u")).
  set (ini := Some (render_ini [mkSchedule "/a" "/a_bak" 24 "" "" false 0 false 0;
                                mkSchedule "/b" "/b_bak" 24 "" "" false 0 false 0])).
  assert (R0 : reachable any_action (sys_init env ini)) by apply ReachInit.
  (* select job A (index 0) and run it *)
  eassert (R1 : reachable any_action _).
  { refine (ReachStep _ ASelect _ _ R0 eq_refl _). apply (StSelect _ _ _ 0).
    apply Nat.ltb_lt. vm_compute. reflexivity. }
  eassert (R2 : reachable any_action _).
  { refine (ReachStep _ ARunNow _ _ R1 eq_refl _). apply (StRunNow env). }
  (* select job B (index 1) and run it *)
  eassert (R3 : reachable any_action _).
  { refine (ReachStep _ ASelect _ _ R2 eq_refl _). apply (StSelect _ _ _ 1).
    apply Nat.ltb_lt. vm_compute. reflexivity. }
  eassert (R4 : reachable any_action _).
  { refine (ReachStep _ ARunNow _ _ R3 eq_refl _). apply (StRunNow env). }
  (* select job A and delete it: B moves to index 0 *)
  eassert (R5 : reachable any_action _).
  { refine (ReachStep _ ASelect _ _ R4 eq_refl _). apply (StSelect _ _ _ 0).
    apply Nat.ltb_lt. vm_compute. reflexivity. }
  eassert (R6 : reachable any_action _).
  { refine (ReachStep _ ADelete _ _ R5 eq_refl _). apply (StDelete env). }
  (* A's thread finishes and sends BackupFinished(0, true) *)
  eassert (R7 : reachable any_action _).
  { refine (ReachStep _ AWorkerDone _ _ R6 eq_refl _). eapply (StWorkerDone _ _ _ 0 _ true).
    reflexivity. }
  (* the controller drains it: B is marked idle *)
  eassert (R8 : reachable any_action _).
  { refine (ReachStep _ ATick _ _ R7 eq_refl _). apply (StTick env false). }
  (* B, at index 0, is run again *)
  eassert (R9 : reachable any_action _).
  { refine (ReachStep _ ASelect _ _ R8 eq_refl _). apply (StSelect _ _ _ 0).
    apply Nat.ltb_lt. vm_compute. reflexivity. }
  eassert (R10 : reachable any_action _).
  { refine (ReachStep _ ARunNow _ _ R9 eq_refl _). apply (StRunNow env). }
  eexists. split; [exact R10 | vm_compute; reflexivity].
Qed.

(** X20: the three mechanisms hold: the scan never launches a running job,
    run-now on a running job only logs, and a launch returns the state with
    the job's running flag set and one thread.  In every run of the program
    without deletions, each job has at most one thread in flight. *)
Theorem at_most_one_run_without_delete :
  (forall env a idx s, nth_error a.(schedules) idx = Some s -> s.(is_running) = true ->
     launched idx (snd (scan env a)) = 0%nat) /\
  (forall env a idx s, a.(selected_index) = Some idx ->
     nth_error a.(schedules) idx = Some s -> s.(is_running) = true ->
     action_run_now env a = (log env "Backup already running" a, [])) /\
  (forall env idx a s, nth_error a.(schedules) idx = Some s ->
     nth_error (fst (spawn_backup env idx a)).(schedules) idx = Some (set_running true s) /\
     snd (spawn_backup env idx a) = [mkWorker (set_running true s) idx]) /\
  (forall st, reachable no_delete st -> forall id, (workers_of id st.(inflight) <= 1)%nat).
Proof.
  split; [|split; [|split]].
  - intros env a idx s Hs Hr. unfold scan.
    rewrite scan_loop_launched by apply seq_NoDup.
    rewrite Hs. unfold is_due. rewrite Hr. destruct (existsb _ _); reflexivity.
  - intros env a idx s Hi Hs Hr. unfold action_run_now. rewrite Hi, Hs, Hr. reflexivity.
  - intros env idx a s Hs. split.
    + rewrite spawn_backup_schedules, nth_error_update_nth, Nat.eqb_refl, Hs. reflexivity.
    + apply spawn_backup_workers. exact Hs.
  - intros st Hst id. apply run_inv_workers_of. apply run_inv_reachable. exact Hst.
Qed.

Lemma at_most_one_run_without_delete_witness :
  exists st, reachable no_delete st /\ st.(app).(selected_index) = Some 0%nat /\
    (exists s, nth_error st.(app).(schedules) 0 = Some s /\ s.(is_running) = true /\
       action_run_now env0 st.(app) = (log env0 "Backup already running" st.(app), [])) /\
    workers_of 0 st.(inflight) = 1%nat /\ (workers_of 0 st.(inflight) <= 1)%nat.
Proof.
  set (ini := Some (render_ini [mkSchedule "/data" "/data_bak" 24 "" "" false 0 false 0])).
  assert (R0 : reachable no_delete (sys_init env0 ini)) by apply ReachInit.
  eassert (R1 : reachable no_delete _).
  { refine (ReachStep _ ASelect _ _ R0 eq_refl _). apply (StSelect _ _ _ 0).
    apply Nat.ltb_lt. vm_compute. reflexivity. }
  eassert (R2 : reachable no_delete _).
  { refine (ReachStep _ ARunNow _ _ R1 eq_refl _). apply (StRunNow env0). }
  match type of R2 with reachable _ ?st => exists st end.
  split; [exact R2|].
  assert (Hsel : (app (mkSys (fst (action_run_now env0 (select_row 0 (app (sys_init env0 ini)))))
              ([] ++ snd (action_run_now env0 (select_row 0 (app (sys_init env0 ini)))))%list
              [])).(selected_index) = Some 0%nat) by (vm_compute; reflexivity).
  split; [exact Hsel|].
  split.
  - set (s := mkSchedule "/data" "/data_bak" 24 "" "" false 0 true 0).
    exists s.
    assert (Hs : nth_error (fst (action_run_now env0 (select_row 0 (app (sys_init env0 ini)))))
                   .(schedules) 0 = Some s) by (vm_compute; reflexivity).
    split; [exact Hs|]. split; [reflexivity|].
    exact (proj1 (proj2 at_most_one_run_without_delete) env0 _ 0%nat s Hsel Hs eq_refl).
  - split; [vm_compute; reflexivity|].
    apply (proj2 (proj2 (proj2 at_most_one_run_without_delete))). exact R2.
Defined.

(** *** Skip lists of the input bar *)

Lemma split_by_nonempty (p : ascii -> bool) (s : string) : RStr.split_by p s <> [].
Proof.
  destruct s as [|c r]; simpl; [discriminate|].
  destruct (p c); [discriminate|]. destruct (RStr.split_by p r); discriminate.
Qed.

Lemma split_by_app_sep (p : ascii -> bool) (l r : string) (c : ascii) :
  p c = true -> RStr.split_by p (l ++ String c r) = (RStr.split_by p l ++ RStr.split_by p r)%list.
Proof.
  intros Hc. induction l as [|d l IH]; simpl.
  - rewrite Hc. reflexivity.
  - rewrite IH. destruct (p d); [reflexivity|].
    destruct (RStr.split_by p l) as [|h t] eqn:E; [exfalso; exact (split_by_nonempty p l E)|].
    reflexivity.
Qed.

Lemma split_by_single (p : ascii -> bool) (s : string) :
  (forall c, p c = true -> has_char c s = false) -> RStr.split_by p s = [s].
Proof.
  induction s as [|d r IH]; intros H; [reflexivity|]. simpl.
  destruct (p d) eqn:Ed.
  - specialize (H d Ed). simpl in H. rewrite Ascii.eqb_refl in H. discriminate.
  - rewrite IH; [reflexivity|]. intros c Hc. specialize (H c Hc). simpl in H.
    apply orb_false_iff in H. apply H.
Qed.

Lemma no_ws_has_char (s : string) (c : ascii) :
  no_ws s = true -> RStr.is_ws c = true -> has_char c s = false.
Proof.
  induction s as [|d r IH]; intros Hs Hc; [reflexivity|]. simpl in *.
  apply andb_true_iff in Hs as [Hd Hr]. rewrite IH by assumption.
  destruct (Ascii.eqb c d) eqn:E; [|reflexivity].
  apply Ascii.eqb_eq in E. subst. rewrite Hc in Hd. discriminate.
Qed.

Lemma split_ws_single (t : string) :
  t <> EmptyString -> no_ws t = true -> RStr.split_whitespace t = [t].
Proof.
  intros Hne Ht. unfold RStr.split_whitespace.
  rewrite split_by_single by (intros c Hc; apply no_ws_has_char; assumption).
  simpl. destruct t; [contradiction | reflexivity].
Qed.

Lemma split_ws_snoc (l t : string) :
  t <> EmptyString -> no_ws t = true ->
  RStr.split_whitespace (l ++ " " ++ t) = (RStr.split_whitespace l ++ [t])%list.
Proof.
  intros Hne Ht. unfold RStr.split_whitespace.
  change (l ++ " " ++ t) with (l ++ String " " t).
  rewrite split_by_app_sep by reflexivity. rewrite filter_app.
  rewrite (split_by_single RStr.is_ws t) by (intros c Hc; apply no_ws_has_char; assumption).
  simpl. destruct t; [contradiction | reflexivity].
Qed.

Lemma trim_end_no_ws (s : string) : no_ws s = true -> RStr.trim_end s = s.
Proof.
  induction s as [|c r IH]; intros H; [reflexivity|]. simpl in *.
  apply andb_true_iff in H as [Hc Hr]. rewrite IH by exact Hr.
  apply negb_true_iff in Hc. rewrite Hc, andb_false_r. reflexivity.
Qed.

Lemma trim_no_ws (s : string) : no_ws s = true -> RStr.trim s = s.
Proof.
  intros H. unfold RStr.trim.
  assert (Hs : RStr.trim_start s = s).
  { destruct s as [|c r]; [reflexivity|]. simpl in *.
    apply andb_true_iff in H as [Hc _]. apply negb_true_iff in Hc. rewrite Hc. reflexivity. }
  rewrite Hs. apply trim_end_no_ws. exact H.
Qed.

Lemma slength_app (a b : string) :
  String.length (a ++ b) = (String.length a + String.length b)%nat.
Proof. induction a as [|c r IH]; simpl; [reflexivity | rewrite IH; reflexivity]. Qed.

Lemma substring_length_le (n m : nat) (s : string) :
  (String.length (substring n m s) <= String.length s - n)%nat.
Proof.
  revert n m; induction s as [|c r IH]; intros [|n] [|m]; simpl; try lia.
  - specialize (IH 0%nat m). lia.
  - apply IH.
  - apply IH.
Qed.

Lemma substring_app_l (a b : string) (m : nat) :
  substring (String.length a) m (a ++ b) = substring 0 m b.
Proof.
  induction a as [|c r IH]; [reflexivity|]. simpl. destruct m; apply IH.
Qed.

Lemma substring_all (b : string) (m : nat) :
  (String.length b <= m)%nat -> substring 0 m b = b.
Proof.
  revert m; induction b as [|c r IH]; intros [|m] H; simpl in *; try reflexivity; try lia.
  rewrite IH by lia. reflexivity.
Qed.

Lemma prefix_app (a b : string) : String.prefix a (a ++ b) = true.
Proof.
  induction a as [|c r IH]; [destruct b; reflexivity|]. simpl.
  destruct (ascii_dec c c) as [_ | n]; [exact IH | contradiction].
Qed.

Lemma tsm_aux_fuel (pat : string) : forall f1 f2 s,
  pat <> EmptyString ->
  (String.length s < f1)%nat -> (String.length s < f2)%nat ->
  RStr.trim_start_matches_aux f1 pat s = RStr.trim_start_matches_aux f2 pat s.
Proof.
  induction f1 as [|g IH]; intros [|h] s Hp H1 H2; try lia. simpl.
  destruct (negb (RStr.is_empty pat) && String.prefix pat s)%bool eqn:E; [|reflexivity].
  assert (Hs : s <> EmptyString).
  { intros ->. destruct pat; [contradiction|]. simpl in E.
    first [discriminate | rewrite andb_false_r in E; discriminate]. }
  assert (Hlp : (1 <= String.length pat)%nat) by (destruct pat; [contradiction|]; simpl; lia).
  assert (Hls : (1 <= String.length s)%nat) by (destruct s; [contradiction|]; simpl; lia).
  pose proof (substring_length_le (String.length pat) (String.length s) s).
  apply IH; [exact Hp | lia | lia].
Qed.

Lemma tsm_aux_step (f : nat) (pat s : string) :
  RStr.trim_start_matches_aux (S f) pat s =
  if (negb (RStr.is_empty pat) && String.prefix pat s)%bool
  then RStr.trim_start_matches_aux f pat (substring (String.length pat) (String.length s) s)
  else s.
Proof. reflexivity. Qed.

Lemma tsm_prefix (pat e : string) :
  pat <> EmptyString ->
  RStr.trim_start_matches pat (pat ++ e) = RStr.trim_start_matches pat e.
Proof.
  intros Hp. unfold RStr.trim_start_matches. rewrite tsm_aux_step.
  assert (Hne : RStr.is_empty pat = false) by (destruct pat; [contradiction | reflexivity]).
  rewrite Hne, prefix_app, slength_app. cbn [negb andb].
  rewrite substring_app_l, substring_all by lia.
  apply tsm_aux_fuel; [exact Hp | |lia].
  destruct pat as [|x xs]; [contradiction|]. simpl. lia.
Qed.

Lemma split_ws_app_space (l t : string) :
  RStr.split_whitespace (l ++ String " " t) =
  (RStr.split_whitespace l ++ RStr.split_whitespace t)%list.
Proof.
  unfold RStr.split_whitespace. rewrite split_by_app_sep by reflexivity.
  apply filter_app.
Qed.

Lemma is_empty_true (s : string) : RStr.is_empty s = true -> s = EmptyString.
Proof. destruct s; [reflexivity | discriminate]. Qed.

Lemma is_empty_false (s : string) : RStr.is_empty s = false -> s <> EmptyString.
Proof. destruct s; [discriminate | intros _; discriminate]. Qed.

Lemma no_ws_app (a b : string) : no_ws (a ++ b) = (no_ws a && no_ws b)%bool.
Proof. induction a as [|c r IH]; simpl; [reflexivity|]. rewrite IH, andb_assoc. reflexivity. Qed.

Lemma parse_skip_tokens_app_space (l t : string) :
  parse_skip_tokens (l ++ String " " t) =
  (parse_skip_tokens l ++ parse_skip_tokens t)%list.
Proof.
  unfold parse_skip_tokens. rewrite split_ws_app_space, map_app, filter_app, !map_app.
  reflexivity.
Qed.

Lemma parse_skip_tokens_star (e : string) :
  e <> EmptyString -> no_ws e = true ->
  parse_skip_tokens ("*." ++ e) = parse_skip_tokens e.
Proof.
  intros Hne Hws. unfold parse_skip_tokens.
  rewrite (split_ws_single ("*." ++ e)) by (try discriminate; rewrite no_ws_app, Hws; reflexivity).
  rewrite (split_ws_single e) by assumption.
  cbn [map]. rewrite (trim_no_ws e Hws), trim_no_ws by (rewrite no_ws_app, Hws; reflexivity).
  cbn [filter]. destruct (RStr.is_empty e) eqn:E; [exfalso; exact (Hne (is_empty_true e E)) |].
  simpl negb. cbn iota. cbn [map].
  rewrite (tsm_prefix "*." e) by discriminate. reflexivity.
Qed.

Lemma to_lower_app (a b : string) :
  RStr.to_ascii_lowercase (a ++ b) = RStr.to_ascii_lowercase a ++ RStr.to_ascii_lowercase b.
Proof. induction a as [|c r IH]; simpl; [reflexivity | rewrite IH; reflexivity]. Qed.

(** X1: when the trimmed extension input [e] is non-empty, contains no inner
    whitespace and is not yet in the skip list (the code's duplicate test),
    "Add ext" clears the input and extends the list of extensions the copy
    engine skips by exactly the token(s) of [e]; jobs and log are untouched. *)
Theorem add_skip_file_ext_appends (env : Env) (a : AppState) :
  let e := RStr.trim a.(input_skip_file_ext) in
  e <> EmptyString -> no_ws e = true ->
  existsb (fun t => RStr.eq_ignore_ascii_case t ("*." ++ e))
    (RStr.split_whitespace a.(label_skip_files)) = false ->
  let a' := add_skip_file_ext env a in
  a'.(input_skip_file_ext) = EmptyString /\
  parse_skip_tokens a'.(label_skip_files) =
    (parse_skip_tokens a.(label_skip_files) ++ parse_skip_tokens e)%list /\
  a'.(schedules) = a.(schedules) /\ a'.(logs) = a.(logs) /\
  a'.(label_skip_folders) = a.(label_skip_folders).
Proof.
  cbv zeta. intros Hne Hws Hnd. unfold add_skip_file_ext.
  destruct (RStr.is_empty (RStr.trim (input_skip_file_ext a))) eqn:E.
  { exfalso. exact (Hne (is_empty_true _ E)). }
  rewrite Hnd. repeat split; try reflexivity.
  destruct (RStr.is_empty (label_skip_files a)) eqn:El; cbn [label_skip_files set_skip_files].
  - rewrite (is_empty_true _ El). rewrite parse_skip_tokens_star by assumption. reflexivity.
  - change (" " ++ ?x) with (String " " x).
    rewrite parse_skip_tokens_app_space, parse_skip_tokens_star by assumption. reflexivity.
Qed.

Lemma add_skip_file_ext_appends_witness :
  parse_skip_tokens (add_skip_file_ext env0 app0).(label_skip_files) = ["tmp"; "log"].
Proof.
  destruct (add_skip_file_ext_appends env0 app0 ltac:(vm_compute; discriminate) eq_refl eq_refl)
    as [_ [H _]].
  rewrite H. reflexivity.
Defined.

Lemma to_lower_star (e : string) :
  RStr.to_ascii_lowercase ("*." ++ e) = "*." ++ RStr.to_ascii_lowercase e.
Proof. reflexivity. Qed.

(** X2: once "Add ext" has accepted an extension [e] (non-empty, without inner
    whitespace), typing it again in any letter case and with any surrounding
    blanks is refused: the second click only logs "Duplicate extension". *)
Theorem add_skip_file_ext_refuses_repeat (env : Env) (a : AppState) (x : string) :
  let e := RStr.trim a.(input_skip_file_ext) in
  e <> EmptyString -> no_ws e = true ->
  RStr.to_ascii_lowercase (RStr.trim x) = RStr.to_ascii_lowercase e ->
  let a1 := add_skip_file_ext env a in
  let a2 := set_skip_files x a1.(label_skip_files) a1 in
  add_skip_file_ext env a2 = log env "Duplicate extension" a2.
Proof.
  cbv zeta. intros Hne Hws Hx.
  assert (Hdup : forall l, In ("*." ++ RStr.trim a.(input_skip_file_ext)) (RStr.split_whitespace l) ->
    existsb (fun t => RStr.eq_ignore_ascii_case t ("*." ++ RStr.trim x)) (RStr.split_whitespace l) = true).
  { intros l Hin. apply existsb_exists. eexists; split; [exact Hin|].
    unfold RStr.eq_ignore_ascii_case. rewrite !to_lower_star, Hx. apply String.eqb_refl. }
  assert (Hxne : RStr.is_empty (RStr.trim x) = false).
  { rewrite <- to_lower_empty, Hx, to_lower_empty.
    destruct (RStr.trim (input_skip_file_ext a)); [contradiction | reflexivity]. }
  unfold add_skip_file_ext at 1. cbn [input_skip_file_ext label_skip_files set_skip_files]. rewrite Hxne.
  unfold add_skip_file_ext.
  destruct (RStr.is_empty (RStr.trim (input_skip_file_ext a))) eqn:E.
  { exfalso. exact (Hne (is_empty_true _ E)). }
  destruct (existsb (fun t => RStr.eq_ignore_ascii_case t ("*." ++ RStr.trim (input_skip_file_ext a)))
              (RStr.split_whitespace (label_skip_files a))) eqn:Hd.
  - cbn [label_skip_files log set_logs].
    apply existsb_exists in Hd as [t [Ht Heq]].
    rewrite (proj2 (existsb_exists _ _)); [reflexivity|].
    exists t; split; [exact Ht|].
    unfold RStr.eq_ignore_ascii_case in *. rewrite to_lower_star, Hx, <- to_lower_star. exact Heq.
  - cbn [label_skip_files set_skip_files].
    rewrite Hdup; [reflexivity|].
    destruct (RStr.is_empty (label_skip_files a)).
    + rewrite split_ws_single; [left; reflexivity | discriminate | rewrite no_ws_app, Hws; reflexivity].
    + change (" " ++ ?y) with (String " " y). rewrite split_ws_app_space, in_app_iff. right.
      rewrite split_ws_single; [left; reflexivity | discriminate | rewrite no_ws_app, Hws; reflexivity].
Qed.

Lemma add_skip_file_ext_refuses_repeat_witness :
  add_skip_file_ext env0
    (set_skip_files " LOG" (add_skip_file_ext env0 app0).(label_skip_files) (add_skip_file_ext env0 app0)) =
  log env0 "Duplicate extension"
    (set_skip_files " LOG" (add_skip_file_ext env0 app0).(label_skip_files) (add_skip_file_ext env0 app0)).
Proof.
  exact (add_skip_file_ext_refuses_repeat env0 app0 " LOG" ltac:(vm_compute; discriminate) eq_refl eq_refl).
Defined.

(** X3: when the trimmed folder input [name] is non-empty, has no inner
    whitespace and is not yet listed (ignoring case), "Add folder" clears the
    input and the folder names the copy engine skips become the old ones
    followed by [name] in lower case; jobs, log and extension list are untouched. *)
Theorem add_skip_folder_appends (env : Env) (a : AppState) :
  let name := RStr.trim a.(input_skip_folder) in
  name <> EmptyString -> no_ws name = true ->
  existsb (fun t => RStr.eq_ignore_ascii_case t name)
    (RStr.split_whitespace a.(label_skip_folders)) = false ->
  let a' := add_skip_folder env a in
  a'.(input_skip_folder) = EmptyString /\
  skip_folder_tokens a'.(label_skip_folders) =
    (skip_folder_tokens a.(label_skip_folders) ++ [RStr.to_ascii_lowercase name])%list /\
  a'.(schedules) = a.(schedules) /\ a'.(logs) = a.(logs) /\
  a'.(label_skip_files) = a.(label_skip_files).
Proof.
  cbv zeta. intros Hne Hws Hnd. unfold add_skip_folder.
  destruct (RStr.is_empty (RStr.trim (input_skip_folder a))) eqn:E.
  { exfalso. exact (Hne (is_empty_true _ E)). }
  rewrite Hnd. repeat split; try reflexivity.
  unfold skip_folder_tokens.
  destruct (RStr.is_empty (label_skip_folders a)) eqn:El; cbn [label_skip_folders set_skip_folders].
  - rewrite (is_empty_true _ El). rewrite (split_ws_single (RStr.trim (input_skip_folder a))) by assumption.
    reflexivity.
  - change (" " ++ ?x) with (String " " x).
    rewrite split_ws_app_space, map_app, (split_ws_single (RStr.trim (input_skip_folder a))) by assumption.
    reflexivity.
Qed.

Lemma add_skip_folder_appends_witness :
  skip_folder_tokens (add_skip_folder env0 app0).(label_skip_folders) = ["target"; "node_modules"].
Proof.
  destruct (add_skip_folder_appends env0 app0 ltac:(vm_compute; discriminate) eq_refl eq_refl)
    as [_ [H _]].
  rewrite H. reflexivity.
Defined.

(** X4: once "Add folder" has accepted a folder name (non-empty, without
    inner whitespace), typing it again in any letter case and with any
    surrounding blanks is refused: the click only logs "Duplicate folder". *)
Theorem add_skip_folder_refuses_repeat (env : Env) (a : AppState) (x : string) :
  let name := RStr.trim a.(input_skip_folder) in
  name <> EmptyString -> no_ws name = true ->
  RStr.to_ascii_lowercase (RStr.trim x) = RStr.to_ascii_lowercase name ->
  let a1 := add_skip_folder env a in
  let a2 := set_skip_folders x a1.(label_skip_folders) a1 in
  add_skip_folder env a2 = log env "Duplicate folder" a2.
Proof.
  cbv zeta. intros Hne Hws Hx.
  assert (Hdup : forall l, In (RStr.trim a.(input_skip_folder)) (RStr.split_whitespace l) ->
    existsb (fun t => RStr.eq_ignore_ascii_case t (RStr.trim x)) (RStr.split_whitespace l) = true).
  { intros l Hin. apply existsb_exists. eexists; split; [exact Hin|].
    unfold RStr.eq_ignore_ascii_case. rewrite Hx. apply String.eqb_refl. }
  assert (Hxne : RStr.is_empty (RStr.trim x) = false).
  { rewrite <- to_lower_empty, Hx, to_lower_empty.
    destruct (RStr.trim (input_skip_folder a)); [contradiction | reflexivity]. }
  unfold add_skip_folder at 1. cbn [input_skip_folder label_skip_folders set_skip_folders]. rewrite Hxne.
  unfold add_skip_folder.
  destruct (RStr.is_empty (RStr.trim (input_skip_folder a))) eqn:E.
  { exfalso. exact (Hne (is_empty_true _ E)). }
  destruct (existsb (fun t => RStr.eq_ignore_ascii_case t (RStr.trim (input_skip_folder a)))
              (RStr.split_whitespace (label_skip_folders a))) eqn:Hd.
  - cbn [label_skip_folders log set_logs].
    apply existsb_exists in Hd as [t [Ht Heq]].
    rewrite (proj2 (existsb_exists _ _)); [reflexivity|].
    exists t; split; [exact Ht|].
    unfold RStr.eq_ignore_ascii_case in *. rewrite Hx. exact Heq.
  - cbn [label_skip_folders set_skip_folders].
    rewrite Hdup; [reflexivity|].
    destruct (RStr.is_empty (label_skip_folders a)).
    + rewrite split_ws_single; [left; reflexivity | assumption | assumption].
    + change (" " ++ ?y) with (String " " y). rewrite split_ws_app_space, in_app_iff. right.
      rewrite split_ws_single; [left; reflexivity | assumption | assumption].
Qed.

Lemma add_skip_folder_refuses_repeat_witness :
  add_skip_folder env0
    (set_skip_folders "Node_Modules " (add_skip_folder env0 app0).(label_skip_folders) (add_skip_folder env0 app0)) =
  log env0 "Duplicate folder"
    (set_skip_folders "Node_Modules " (add_skip_folder env0 app0).(label_skip_folders) (add_skip_folder env0 app0)).
Proof.
  exact (add_skip_folder_refuses_repeat env0 app0 "Node_Modules " ltac:(vm_compute; discriminate) eq_refl eq_refl).
Defined.

(** *** Folder pickers *)

Lemma split_slash_name (n : string) :
  has_char "/"%char n = false -> RStr.split_by (fun c => Ascii.eqb c "/"%char) n = [n].
Proof.
  intros H. apply split_by_single. intros c Hc. apply Ascii.eqb_eq in Hc. subst. exact H.
Qed.

Lemma file_name_snoc (base n : string) :
  plain_name n ->
  file_name (base ++ "/" ++ n) = Some n /\ file_name (base ++ "/" ++ n ++ "/") = Some n.
Proof.
  intros [Hne [Hs [Hd Hdd]]].
  assert (Hkeep : negb (RStr.is_empty n || String.eqb n ".") = true).
  { unfold RStr.is_empty. rewrite (proj2 (String.eqb_neq n EmptyString) Hne).
    rewrite (proj2 (String.eqb_neq n ".") Hd). reflexivity. }
  assert (Hnd : String.eqb n ".." = false) by (apply String.eqb_neq; exact Hdd).
  unfold file_name. split.
  - change ("/" ++ n) with (String "/" n).
    rewrite split_by_app_sep by reflexivity. rewrite (split_slash_name n Hs).
    rewrite filter_app. cbn [filter]. rewrite Hkeep, rev_app_distr. cbn [List.rev List.app].
    rewrite Hnd. reflexivity.
  - change ("/" ++ n ++ "/") with (String "/" (n ++ String "/" EmptyString)).
    rewrite split_by_app_sep by reflexivity. rewrite split_by_app_sep by reflexivity.
    rewrite (split_slash_name n Hs).
    rewrite !filter_app. cbn [filter RStr.split_by]. rewrite Hkeep. cbn [RStr.is_empty String.eqb orb negb].
    rewrite app_nil_r, rev_app_distr. cbn [List.rev List.app]. rewrite Hnd. reflexivity.
Qed.

Lemma pick_source_leaf_spec (env : Env) (a : AppState) (base n : string) :
  plain_name n ->
  (a.(input_dest_dir) = EmptyString \/ a.(input_dest_dir) = default_backup_root env) ->
  forall path, path = base ++ "/" ++ n \/ path = base ++ "/" ++ n ++ "/" ->
  let a' := pick_source env path a in
  a'.(input_source_dir) = path /\
  a'.(input_dest_dir) = path_join (default_backup_root env) n /\
  a'.(schedules) = a.(schedules) /\ a'.(logs) = a.(logs).
Proof.
  intros Hn Hdst path Hp. cbv zeta. unfold pick_source. cbn [input_source_dir input_dest_dir set_inputs].
  assert (Hpne : RStr.is_empty path = false) by (destruct Hp; subst; destruct base; reflexivity).
  assert (Hdef : (RStr.is_empty (input_dest_dir a) || String.eqb (input_dest_dir a) (default_backup_root env))%bool = true).
  { destruct Hdst as [-> | ->]; [reflexivity|]. rewrite String.eqb_refl, orb_true_r. reflexivity. }
  rewrite Hpne, Hdef. cbn [negb input_source_dir input_dest_dir set_inputs schedules logs].
  unfold default_dest_for_source.
  destruct (file_name_snoc base n Hn) as [H1 H2].
  repeat split; try reflexivity.
  destruct Hp; subst; [rewrite H1 | rewrite H2]; reflexivity.
Qed.

(** X5: choosing a source folder [base/n] (also given with a trailing slash),
    while the destination input is empty or still the default backup root,
    proposes [n] inside the default backup root as destination. *)
Theorem pick_source_proposes_leaf (env : Env) (a : AppState) (base n : string) :
  plain_name n ->
  (a.(input_dest_dir) = EmptyString \/ a.(input_dest_dir) = default_backup_root env) ->
  forall path, path = base ++ "/" ++ n \/ path = base ++ "/" ++ n ++ "/" ->
  let a' := pick_source env path a in
  a'.(input_source_dir) = path /\
  a'.(input_dest_dir) = path_join (default_backup_root env) n /\
  a'.(schedules) = a.(schedules) /\ a'.(logs) = a.(logs).
Proof. exact (pick_source_leaf_spec env a base n). Qed.

Lemma pick_source_proposes_leaf_witness :
  (pick_source env0 "/home/u/docs/" app0).(input_dest_dir) = "/home/u/BackUp/docs".
Proof.
  destruct (pick_source_proposes_leaf env0 app0 "/home/u" "docs"
              ltac:(repeat split; try discriminate; reflexivity) (or_introl eq_refl)
              "/home/u/docs/" (or_intror eq_refl)) as [_ [H _]].
  rewrite H. reflexivity.
Defined.

(** X6: the source picker does not make the check the destination picker
    makes: choosing as source a folder [root/n] directly inside the default
    backup root [root] (not ending in a slash), while the destination input is
    empty or [root], sets the destination to that same folder, although
    choosing that folder as destination is refused with a log line. *)
Theorem pick_source_can_set_dest_to_source (env : Env) (a : AppState) (n : string) :
  let root := default_backup_root env in
  RStr.is_empty root = false ->
  String.eqb (substring (String.length root - 1) 1 root) "/" = false ->
  plain_name n ->
  (a.(input_dest_dir) = EmptyString \/ a.(input_dest_dir) = root) ->
  let a' := pick_source env (root ++ "/" ++ n) a in
  a'.(input_dest_dir) = a'.(input_source_dir) /\
  pick_dest env a'.(input_source_dir) a' = log env "Destination cannot equal source" a'.
Proof.
  cbv zeta. intros Hne Hsl Hn Hdst.
  destruct (pick_source_leaf_spec env a (default_backup_root env) n Hn Hdst
              (default_backup_root env ++ "/" ++ n) (or_introl eq_refl)) as [Hs [Hd _]].
  cbv zeta in Hs, Hd.
  assert (Heq : input_dest_dir (pick_source env (default_backup_root env ++ "/" ++ n) a) =
                input_source_dir (pick_source env (default_backup_root env ++ "/" ++ n) a)).
  { rewrite Hd, Hs. unfold path_join. rewrite Hne, Hsl. reflexivity. }
  split; [exact Heq|].
  unfold pick_dest. rewrite String.eqb_refl. reflexivity.
Qed.

Lemma pick_source_can_set_dest_to_source_witness :
  (pick_source env0 "/home/u/BackUp/docs" app0).(input_dest_dir) = "/home/u/BackUp/docs".
Proof.
  destruct (pick_source_can_set_dest_to_source env0 app0 "docs" eq_refl eq_refl
              ltac:(repeat split; try discriminate; reflexivity) (or_introl eq_refl)) as [H _].
  exact (eq_trans H eq_refl).
Defined.

(** *** Delete and Run now *)

Lemma nth_error_remove_at {A} (idx i : nat) (l : list A) :
  (idx < length l)%nat ->
  nth_error (remove_at idx l) i = nth_error l (if Nat.ltb i idx then i else S i).
Proof.
  revert idx i; induction l as [|h t IH]; intros idx i H; simpl in H; [lia|].
  destruct idx as [|idx]; destruct i as [|i]; simpl; try reflexivity.
  change (Nat.ltb (S i) (S idx)) with (Nat.ltb i idx).
  rewrite IH by lia. destruct (Nat.ltb i idx); reflexivity.
Qed.

Lemma length_remove_at {A} (idx : nat) (l : list A) :
  (idx < length l)%nat -> length (remove_at idx l) = pred (length l).
Proof.
  revert idx; induction l as [|h t IH]; intros idx H; simpl in H; [lia|].
  destruct idx as [|idx]; simpl; [reflexivity|]. rewrite IH by lia. destruct t; simpl in *; lia.
Qed.

(** X7: with a row [idx] selected that exists, Delete removes exactly that job
    (the later ones move down by one), clears the selection, writes the new
    list to AutoBackup.ini and logs nothing; with a selection past the end it
    does nothing at all. *)
Theorem action_delete_removes_selected (env : Env) (a : AppState) (idx : nat) :
  a.(selected_index) = Some idx ->
  let a' := action_delete env a in
  if Nat.ltb idx (length a.(schedules)) then
    length a'.(schedules) = pred (length a.(schedules)) /\
    (forall i, nth_error a'.(schedules) i =
               nth_error a.(schedules) (if Nat.ltb i idx then i else S i)) /\
    a'.(selected_index) = None /\
    a'.(ini_file) = Some (render_ini a'.(schedules)) /\
    a'.(logs) = a.(logs)
  else a' = a.
Proof.
  intros Hsel. cbv zeta. unfold action_delete. rewrite Hsel.
  destruct (Nat.ltb idx (length (schedules a))) eqn:E; [|reflexivity].
  apply Nat.ltb_lt in E. cbn [save_data set_ini set_selected set_schedules schedules selected_index ini_file logs].
  repeat split.
  - apply length_remove_at. exact E.
  - intros i. apply nth_error_remove_at. exact E.
Qed.

Lemma action_delete_removes_selected_witness :
  nth_error (action_delete env0 app1).(schedules) 0 = nth_error app1.(schedules) 1.
Proof.
  exact (proj1 (proj2 (action_delete_removes_selected env0 app1 0 eq_refl)) 0%nat).
Defined.

(** X8: "Run now" starts a backup thread exactly when a row is selected that
    exists and whose job is not running; the thread then runs a copy of that
    job marked running and reports for that row, and the row is marked
    running. When no thread starts, the job list is unchanged. *)
Theorem action_run_now_starts_iff (env : Env) (a : AppState) :
  let r := action_run_now env a in
  (snd r <> [] <-> exists idx s, a.(selected_index) = Some idx /\
                     nth_error a.(schedules) idx = Some s /\ s.(is_running) = false) /\
  (forall idx s, a.(selected_index) = Some idx -> nth_error a.(schedules) idx = Some s ->
     s.(is_running) = false ->
     snd r = [mkWorker (set_running true s) idx] /\
     (fst r).(schedules) = update_nth idx (set_running true) a.(schedules)) /\
  (snd r = [] -> (fst r).(schedules) = a.(schedules)).
Proof.
  cbv zeta. unfold action_run_now.
  destruct (selected_index a) as [idx|] eqn:Hsel.
  2:{ split; [split|split].
      - intros H; contradiction H; reflexivity.
      - intros [i [s [H _]]]; discriminate.
      - intros i s H; discriminate.
      - intros _; reflexivity. }
  destruct (nth_error (schedules a) idx) as [s|] eqn:Hn.
  2:{ split; [split|split].
      - intros H; contradiction H; reflexivity.
      - intros [i [s' [H [H' _]]]]. injection H as <-. congruence.
      - intros i s' H H'; injection H as <-; congruence.
      - intros _; reflexivity. }
  destruct (is_running s) eqn:Hr.
  - split; [split|split].
    + intros H; contradiction H; reflexivity.
    + intros [i [s' [H [H' H'']]]]. injection H as <-. congruence.
    + intros i s' H H'; injection H as <-; congruence.
    + intros _; reflexivity.
  - rewrite (spawn_backup_workers env idx a s Hn), spawn_backup_schedules.
    split; [split|split].
    + intros _. exists idx, s. auto.
    + intros _. discriminate.
    + intros i s' H H' _. injection H as <-. rewrite Hn in H'. injection H' as <-. auto.
    + discriminate.
Qed.

Lemma action_run_now_starts_iff_witness :
  snd (action_run_now env0 app1) =
  [mkWorker (set_running true (Schedule_new env0 0 "/src" "/dst" 24 "" "" false)) 0].
Proof.
  destruct (action_run_now_starts_iff env0 app1) as [_ [H _]].
  exact (proj1 (H 0%nat _ eq_refl eq_refl eq_refl)).
Defined.

(** *** The message drain of [tick] *)

(** X9: draining the channel appends one log line per message, in the order
    the messages were sent, each stamped with the drain time: the message text
    for [Log], "Backup completed" or "Backup failed" for [BackupFinished]. *)
Theorem drain_logs (env : Env) (q : list AppMsg) (a : AppState) :
  (drain env q a).(logs) = (a.(logs) ++ map (fun m => (env.(env_now), msg_line m)) q)%list.
Proof.
  unfold drain. revert a; induction q as [|m q IH]; intros a; simpl.
  - rewrite app_nil_r. reflexivity.
  - rewrite IH. destruct m; cbn [handle_msg log set_logs set_schedules logs];
      rewrite <- app_assoc; reflexivity.
Qed.

Lemma drain_schedules_spec (env : Env) (q : list AppMsg) (a : AppState) :
  length (drain env q a).(schedules) = length a.(schedules) /\
  forall i, nth_error (drain env q a).(schedules) i =
            if finishes i q then option_map (finish_job env.(env_now)) (nth_error a.(schedules) i)
            else nth_error a.(schedules) i.
Proof.
  unfold drain. revert a; induction q as [|m q IH]; intros a; [split; reflexivity|].
  destruct (IH (handle_msg env a m)) as [IHl IHn]. split.
  - cbn [fold_left]. rewrite IHl.
    destruct m; cbn [handle_msg log set_logs set_schedules schedules]; [reflexivity|].
    apply length_update_nth.
  - intros i. cbn [fold_left]. rewrite IHn.
    destruct m as [s | j ok]; cbn [handle_msg log set_logs set_schedules schedules finishes existsb].
    + reflexivity.
    + change (existsb _ q) with (finishes i q).
      rewrite nth_error_update_nth.
      destruct (Nat.eqb j i); destruct (finishes i q); cbn [orb]; try reflexivity.
      destruct (nth_error (schedules a) i); reflexivity.
Qed.

(** X10: draining keeps the number of jobs; job [i] is marked idle with
    [last_time] set to the drain time exactly when some [BackupFinished i]
    was drained, however many, and is untouched otherwise. A
    [BackupFinished] for an index past the end changes nothing. *)
Theorem drain_schedules (env : Env) (q : list AppMsg) (a : AppState) :
  length (drain env q a).(schedules) = length a.(schedules) /\
  forall i, nth_error (drain env q a).(schedules) i =
            if finishes i q then option_map (finish_job env.(env_now)) (nth_error a.(schedules) i)
            else nth_error a.(schedules) i.
Proof. exact (drain_schedules_spec env q a). Qed.

(** *** The periodic scan of [tick] *)

Lemma scan_loop_spec (env : Env) (idxs : list nat) (a : AppState) :
  NoDup idxs ->
  snd (scan_loop env idxs a) = flat_map (due_worker env a) idxs /\
  (fst (scan_loop env idxs a)).(logs) =
    (a.(logs) ++ map (fun w => (env.(env_now), ("Backup started: " ++ w.(w_sched).(source_dir))%string))
                    (flat_map (due_worker env a) idxs))%list /\
  forall i, nth_error (fst (scan_loop env idxs a)).(schedules) i =
    if existsb (Nat.eqb i) idxs then option_map (mark_due env.(env_now)) (nth_error a.(schedules) i)
    else nth_error a.(schedules) i.
Proof.
  revert a; induction idxs as [|i rest IH]; intros a Hnd.
  { split; [reflexivity|]. split; [symmetry; apply app_nil_r | reflexivity]. }
  inversion Hnd as [|? ? Hni Hnd']; subst.
  assert (Hrest : forall b, (forall j, j <> i -> nth_error b.(schedules) j = nth_error a.(schedules) j) ->
            flat_map (due_worker env b) rest = flat_map (due_worker env a) rest).
  { intros b Hb. clear IH Hnd Hnd'. induction rest as [|j r IHr]; [reflexivity|].
    cbn [flat_map]. rewrite IHr by (intros Hx; apply Hni; right; exact Hx).
    unfold due_worker. rewrite Hb; [reflexivity|]. intros ->. apply Hni. left. reflexivity. }
  assert (Hnotin : existsb (Nat.eqb i) rest = false).
  { apply not_true_iff_false. intros Hx. apply existsb_exists in Hx.
    destruct Hx as [x [Hx1 Hx2]]. apply Nat.eqb_eq in Hx2; subst. contradiction. }
  cbn [scan_loop flat_map].
  destruct (nth_error (schedules a) i) as [si|] eqn:Ei.
  - destruct (is_due (env_now env) si) eqn:Ed.
    + unfold spawn_backup. rewrite Ei.
      set (a1 := log env ("Backup started: " ++ source_dir (set_running true si))
                   (set_schedules (update_nth i (set_running true) (schedules a)) a)).
      assert (H1 : forall j, nth_error (schedules a1) j =
                   if Nat.eqb i j then option_map (set_running true) (nth_error (schedules a) j)
                   else nth_error (schedules a) j) by (intros j; apply nth_error_update_nth).
      destruct (IH a1 Hnd') as [IHw [IHl IHn]].
      destruct (scan_loop env rest a1) as [a2 w2]. cbn [fst snd] in *.
      rewrite Hrest in IHw, IHl
        by (intros j Hj; rewrite H1; rewrite (proj2 (Nat.eqb_neq i j)) by congruence; reflexivity).
      replace (due_worker env a i) with [mkWorker (set_running true si) i]
        by (unfold due_worker; rewrite Ei, Ed; reflexivity).
      split; [rewrite IHw; reflexivity|]. split.
      * rewrite IHl. cbn [a1 log set_logs set_schedules logs]. rewrite <- app_assoc. reflexivity.
      * intros j. rewrite IHn, H1. cbn [existsb].
        destruct (Nat.eqb j i) eqn:Eji.
        -- apply Nat.eqb_eq in Eji. subst j. rewrite Hnotin, Nat.eqb_refl, Ei.
           cbn [option_map orb]. unfold mark_due. rewrite Ed. reflexivity.
        -- rewrite Nat.eqb_sym, Eji. reflexivity.
    + destruct (IH a Hnd') as [IHw [IHl IHn]].
      destruct (scan_loop env rest a) as [a2 w2]. cbn [fst snd] in *.
      replace (due_worker env a i) with (@nil Worker)
        by (unfold due_worker; rewrite Ei, Ed; reflexivity).
      split; [exact IHw|]. split; [exact IHl|].
      intros j. rewrite IHn. cbn [existsb].
      destruct (Nat.eqb j i) eqn:Eji; [|reflexivity].
      apply Nat.eqb_eq in Eji. subst j. rewrite Hnotin, Ei. cbn. unfold mark_due. rewrite Ed. reflexivity.
  - destruct (IH a Hnd') as [IHw [IHl IHn]].
    destruct (scan_loop env rest a) as [a2 w2]. cbn [fst snd] in *.
    replace (due_worker env a i) with (@nil Worker)
      by (unfold due_worker; rewrite Ei; reflexivity).
    split; [exact IHw|]. split; [exact IHl|].
    intros j. rewrite IHn. cbn [existsb].
    destruct (Nat.eqb j i) eqn:Eji; [|reflexivity].
    apply Nat.eqb_eq in Eji. subst j. rewrite Hnotin, Ei. reflexivity.
Qed.

(** X11: one scan starts, in row order, one thread for each job that is due
    when the scan starts (idle, with at least [period_hours] whole hours since
    [last_time]), logs "Backup started: <source>" for each of them in the same
    order, and marks exactly those jobs running. *)
Theorem scan_starts_due_jobs (env : Env) (a : AppState) :
  snd (scan env a) = flat_map (due_worker env a) (seq 0 (length a.(schedules))) /\
  (fst (scan env a)).(logs) =
    (a.(logs) ++ map (fun w => (env.(env_now), ("Backup started: " ++ w.(w_sched).(source_dir))%string))
                    (snd (scan env a)))%list /\
  (fst (scan env a)).(schedules) = map (mark_due env.(env_now)) a.(schedules).
Proof.
  unfold scan. destruct (scan_loop_spec env (seq 0 (length (schedules a))) a (seq_NoDup _ _))
    as [Hw [Hl Hn]].
  split; [exact Hw|]. split; [rewrite Hw; exact Hl|].
  apply nth_error_ext. intros i. rewrite Hn, nth_error_map.
  destruct (existsb (Nat.eqb i) (seq 0 (length (schedules a)))) eqn:E; [reflexivity|].
  destruct (nth_error (schedules a) i) eqn:Ei; [|reflexivity].
  exfalso. apply not_true_iff_false in E. apply E. apply existsb_exists. exists i.
  split; [|apply Nat.eqb_refl]. apply in_seq. split; [lia|].
  apply nth_error_Some. congruence.
Qed.

(** *** Reading AutoBackup.ini *)

Lemma length_split_comma (s : string) :
  length (RStr.split_comma s) = S (count_char ","%char s).
Proof.
  unfold RStr.split_comma. induction s as [|c r IH]; [reflexivity|].
  cbn [RStr.split_by count_char]. rewrite Ascii.eqb_sym.
  destruct (Ascii.eqb ","%char c).
  - cbn [length]. rewrite IH. reflexivity.
  - destruct (RStr.split_by (fun c0 => Ascii.eqb c0 ","%char) r) as [|h t] eqn:E.
    + exfalso. exact (split_by_nonempty _ r E).
    + cbn [length] in *. rewrite IH. reflexivity.
Qed.

(** X12: a record line of AutoBackup.ini is dropped exactly when it holds
    fewer than two commas once trailing whitespace is removed; any other line
    gives a job, idle and with [last_time] set to the loading time, whatever
    its fields contain. *)
Theorem parse_record_needs_two_commas (env : Env) (id : nat) (line : string) :
  (parse_record env id line = None <-> (count_char ","%char (RStr.trim_end line) < 2)%nat) /\
  (forall s, parse_record env id line = Some s ->
     s.(is_running) = false /\ s.(last_time) = env.(env_now)).
Proof.
  unfold parse_record. rewrite length_split_comma. split.
  - destruct (Nat.leb 3 (S (count_char ","%char (RStr.trim_end line)))) eqn:E.
    + apply Nat.leb_le in E. split; [discriminate | lia].
    + apply Nat.leb_gt in E. split; [lia | reflexivity].
  - intros s. destruct (Nat.leb 3 _); intros H; [|discriminate].
    injection H as <-. split; reflexivity.
Qed.

Lemma load_records_spec (env : Env) (n : nat) (rest : string) (a : AppState) :
  exists l, (load_records env n rest a).(schedules) = (a.(schedules) ++ l)%list /\
    (length l <= n)%nat /\
    Forall (fun s => s.(is_running) = false /\ s.(last_time) = env.(env_now)) l /\
    (load_records env n rest a).(logs) = a.(logs) /\
    (load_records env n rest a).(selected_index) = a.(selected_index).
Proof.
  revert rest a; induction n as [|n IH]; intros rest a.
  { exists []. rewrite app_nil_r. repeat split; auto. }
  cbn [load_records]. destruct (RStr.read_line rest) as [line rest'].
  destruct (parse_record env (next_id a) line) as [s|] eqn:E.
  - destruct (IH rest' (set_next_id (S (next_id a)) (set_schedules (schedules a ++ [s]) a)))
      as [l [Hs [Hl [Hf [Hlog Hsel]]]]].
    exists (s :: l). rewrite Hs. cbn [set_next_id set_schedules schedules] in *.
    rewrite <- app_assoc. split; [reflexivity|]. split; [cbn [length]; lia|].
    split; [constructor; [apply (proj2 (parse_record_needs_two_commas env (next_id a) line)); exact E | exact Hf]|].
    split; [exact Hlog | exact Hsel].
  - destruct (IH rest' a) as [l [Hs [Hl [Hf [Hlog Hsel]]]]].
    exists l. repeat split; auto.
Qed.

(** X13: without an AutoBackup.ini, loading changes nothing. With one, the
    loaded jobs are added after the existing ones, at most as many as the
    count on the second line says (none when that line is not a number), all
    idle and stamped with the loading time, and one log line reports the
    resulting number of jobs. *)
Theorem load_data_spec (env : Env) (a : AppState) :
  match a.(ini_file) with
  | None => load_data env a = a
  | Some content =>
      let count := unwrap_or (Num.parse_usize (RStr.trim (fst (RStr.read_line
                     (snd (RStr.read_line content)))))) 0%nat in
      exists l, (load_data env a).(schedules) = (a.(schedules) ++ l)%list /\
        (length l <= count)%nat /\
        Forall (fun s => s.(is_running) = false /\ s.(last_time) = env.(env_now)) l /\
        (load_data env a).(logs) =
          (a.(logs) ++ [(env.(env_now), ("Loaded " ++
             Num.show_usize (length (load_data env a).(schedules)) ++ " schedule(s)")%string)])%list
  end.
Proof.
  unfold load_data. destruct (ini_file a) as [content|]; [|reflexivity].
  destruct (RStr.read_line content) as [title rest]. cbn [snd].
  destruct (RStr.read_line rest) as [count_line rest2]. cbn [fst].
  destruct (load_records_spec env (unwrap_or (Num.parse_usize (RStr.trim count_line)) 0%nat) rest2 a)
    as [l [Hs [Hl [Hf [Hlog _]]]]].
  exists l. cbn [log set_logs schedules logs]. rewrite Hs, Hlog.
  repeat split; assumption.
Qed.

(** *** Editing a selected row *)

Lemma no_ws_uint (d : Decimal.uint) : no_ws (Num.string_of_uint d) = true.
Proof. induction d; simpl; auto. Qed.

Lemma trim_show_i32 (n : Z) : RStr.trim (Num.show_i32 n) = Num.show_i32 n.
Proof.
  apply trim_no_ws. unfold Num.show_i32, Num.show_N.
  destruct (n <? 0); simpl; apply no_ws_uint.
Qed.

Lemma update_nth_id {A} (i : nat) (l : list A) : update_nth i (fun x => x) l = l.
Proof. revert i; induction l as [|h t IH]; intros [|i]; simpl; try rewrite IH; reflexivity. Qed.

Lemma set_config_same (s : Schedule) :
  set_config s.(source_dir) s.(dest_dir) s.(period_hours) s.(skip_file_exts_label)
    s.(skip_folders_label) s.(use_zip) s = s.
Proof. destruct s; reflexivity. Qed.

(** X14: clicking a row and then Edit without touching the inputs saves the
    job unchanged when its period is at least 1, and when its period is 0 or
    negative (which AutoBackup.ini may hold) silently resets that period to
    24; the file is rewritten either way. This holds whenever the job's
    folders pass Edit's checks: source non-blank and existing, destination
    non-blank and existing or creatable. *)
Theorem select_then_edit (env : Env) (a : AppState) (i : nat) (s : Schedule) :
  nth_error a.(schedules) i = Some s ->
  Num.in_i32 s.(period_hours) = true ->
  RStr.is_empty (RStr.trim s.(source_dir)) = false -> env.(env_exists) s.(source_dir) = true ->
  RStr.is_empty (RStr.trim s.(dest_dir)) = false ->
  (env.(env_exists) s.(dest_dir) = true \/ env.(env_create_dir_all) s.(dest_dir) = None) ->
  exists a', action_edit env (select_row i a) = Some a' /\
    a'.(schedules) =
      (if 1 <=? s.(period_hours) then a.(schedules)
       else update_nth i (set_config s.(source_dir) s.(dest_dir) 24 s.(skip_file_exts_label)
                            s.(skip_folders_label) s.(use_zip)) a.(schedules)) /\
    a'.(ini_file) = Some (render_ini a'.(schedules)).
Proof.
  intros Hn Hp Hs Hse Hd Hde.
  unfold select_row. rewrite Hn. unfold action_edit.
  cbn [set_inputs set_selected selected_index input_source_dir input_dest_dir schedules].
  rewrite Hs, Hse, Hd. cbn [orb negb].
  assert (He : ensure_dest env (set_inputs (source_dir s) (dest_dir s) (Num.show_i32 (period_hours s))
             (skip_file_exts_label s) (skip_folders_label s) (use_zip s) (set_selected (Some i) a)) = None).
  { unfold ensure_dest. cbn [set_inputs set_selected input_dest_dir].
    destruct Hde as [-> | Hc]; [reflexivity|].
    destruct (env_exists env (dest_dir s)); [reflexivity|]. rewrite Hc. reflexivity. }
  rewrite He. cbn [set_inputs set_selected schedules]. rewrite Hn.
  eexists; split; [reflexivity|].
  cbn [clear_inputs save_data set_ini set_schedules schedules ini_file].
  split; [|reflexivity].
  unfold input_period. cbn [set_inputs set_selected input_period_hours label_skip_files
    label_skip_folders input_use_zip input_source_dir input_dest_dir].
  rewrite trim_show_i32, parse_i32_show by exact Hp.
  destruct (1 <=? period_hours s).
  - rewrite set_config_same.
    rewrite (firstn_skipn_update i (fun x => x) (schedules a) s Hn). apply update_nth_id.
  - apply firstn_skipn_update. exact Hn.
Qed.

Lemma select_then_edit_witness :
  exists a', action_edit env0 (select_row 0 (set_schedules
      [Schedule_new env0 0 "/data" "/data" 0 "" "" false] app0)) = Some a' /\
    a'.(schedules) = [set_config "/data" "/data" 24 "" "" false (Schedule_new env0 0 "/data" "/data" 0 "" "" false)].
Proof.
  destruct (select_then_edit env0 (set_schedules [Schedule_new env0 0 "/data" "/data" 0 "" "" false] app0)
              0 (Schedule_new env0 0 "/data" "/data" 0 "" "" false)
              eq_refl eq_refl eq_refl eq_refl eq_refl (or_introl eq_refl)) as [a' [H1 [H2 _]]].
  exists a'. split; [exact H1 | rewrite H2; reflexivity].
Defined.

(** *** Skip lists of the copy engine *)

Lemma skip_by_ext_nil (name : string) : skip_by_ext [] name = false.
Proof. unfold skip_by_ext. cbn [existsb]. apply andb_false_r. Qed.

Lemma prune_dir (se sf : list string) (x : io_result (list (io_result (string * Node)))) :
  exists y, prune se sf (NDir x) = NDir y.
Proof. destruct x; eexists; reflexivity. Qed.

(** X15: the skip lists act on the copy only by hiding entries: a run of
    [copy_recursive] with skip lists does the same filesystem operations and
    gives the same result as a run without skip lists over the tree from which
    the skipped files and folders (with all their contents) are removed. *)
Theorem copy_recursive_skip_is_prune (fs : FsEnv) (se sf : list string) (n : Node) :
  forall src dst,
  copy_recursive fs src n dst se sf = copy_recursive fs src (prune se sf n) dst [] [].
Proof.
  set (rec := fun p c d => copy_recursive fs p c d se sf).
  set (rec0 := fun p c d => copy_recursive fs p c d [] []).
  induction n using node_ind_nested with
    (Q := fun es => forall src dst,
       copy_entries rec src dst se sf es =
       copy_entries rec0 src dst [] [] (prune_entries (prune se sf) se sf es));
    intros src dst.
  - reflexivity.
  - reflexivity.
  - cbn [prune copy_recursive]. destruct (fs_create_dir_all fs dst); [reflexivity|].
    fold rec. fold rec0. rewrite IHn. reflexivity.
  - reflexivity.
  - reflexivity.
  - reflexivity.
  - cbn [prune_entries]. destruct n as [err | x | ].
    + rewrite copy_entries_cons. destruct (skip_by_ext se nm); [apply IHn0|].
      rewrite copy_entries_cons, skip_by_ext_nil, IHn0. reflexivity.
    + rewrite copy_entries_cons. destruct (skip_by_folder sf nm); [apply IHn0|].
      destruct (prune_dir se sf x) as [y Hy].
      rewrite copy_entries_cons, Hy. cbn [skip_by_folder existsb].
      unfold rec at 1, rec0 at 1. rewrite IHn, Hy, IHn0. reflexivity.
    + rewrite !copy_entries_cons. apply IHn0.
Qed.

(** *** The thread of [spawn_backup] *)

Lemma copy_recursive_no_finish (fs : FsEnv) (se sf : list string) (n : Node) :
  forall src dst, forallb (fun e => negb (is_finish e)) (fst (copy_recursive fs src n dst se sf)) = true.
Proof.
  set (rec := fun p c d => copy_recursive fs p c d se sf).
  induction n using node_ind_nested with
    (Q := fun es => forall src dst,
       forallb (fun e => negb (is_finish e)) (fst (copy_entries rec src dst se sf es)) = true);
    intros src dst.
  - simpl. destruct (fs_create_dir_all fs dst); reflexivity.
  - simpl. destruct (fs_create_dir_all fs dst); reflexivity.
  - cbn [copy_recursive]. destruct (fs_create_dir_all fs dst); [reflexivity|].
    fold rec. specialize (IHn src dst).
    destruct (copy_entries rec src dst se sf es) as [tr r]. exact IHn.
  - simpl. destruct (fs_create_dir_all fs dst); reflexivity.
  - reflexivity.
  - reflexivity.
  - rewrite copy_entries_cons. specialize (IHn0 src dst). destruct n as [err | x | ].
    + destruct (skip_by_ext se nm); [exact IHn0|].
      destruct (copy_entries rec src dst se sf es) as [tr' r'].
      cbn [fst] in *. rewrite forallb_app, IHn0. destruct err; reflexivity.
    + destruct (skip_by_folder sf nm); [exact IHn0|].
      specialize (IHn (path_join src nm) (path_join dst nm)). unfold rec at 1.
      destruct (copy_recursive fs (path_join src nm) (NDir x) (path_join dst nm) se sf)
        as [tr [u | e]]; cbn [fst] in *; [|exact IHn].
      destruct (copy_entries rec src dst se sf es) as [tr' r'].
      cbn [fst] in *. rewrite forallb_app, IHn, IHn0. reflexivity.
    + exact IHn0.
Qed.

(** X16: every backup thread sends exactly one [BackupFinished] message, as
    its last event and for the row it was started for; its flag is true
    exactly when the source exists, the destination exists or is created, and
    the recursive copy returns [Ok] (archiving never changes it). *)
Theorem backup_thread_one_finish (fs : FsEnv) (w : Worker) :
  let s := w.(w_sched) in
  exists tr ok,
    backup_thread fs w = (tr ++ [EvSend (BackupFinished w.(w_idx) ok)])%list /\
    forallb (fun e => negb (is_finish e)) tr = true /\
    (ok = true <->
       fs.(fs_exists) s.(source_dir) = true /\
       (fs.(fs_exists) s.(dest_dir) = true \/ fs.(fs_create_dir_all) s.(dest_dir) = None) /\
       exists tr3, copy_recursive fs s.(source_dir) fs.(fs_tree) s.(dest_dir)
                     (parse_skip_tokens s.(skip_file_exts_label))
                     (skip_folder_tokens s.(skip_folders_label)) = (tr3, IoOk tt)).
Proof.
  cbv zeta. unfold backup_thread.
  destruct w as [s idx]. cbn [w_sched w_idx].
  pose proof (copy_recursive_no_finish fs (parse_skip_tokens (skip_file_exts_label s))
                (skip_folder_tokens (skip_folders_label s)) (fs_tree fs) (source_dir s) (dest_dir s)) as Hnf.
  unfold execute_backup.
  destruct (fs_exists fs (source_dir s)) eqn:Hs; cbn [negb].
  2:{ eexists _, false. split; [reflexivity|]. split; [reflexivity|].
      split; [discriminate | intros [H _]; discriminate]. }
  destruct (fs_exists fs (dest_dir s)) eqn:Hd.
  - destruct (copy_recursive fs (source_dir s) (fs_tree fs) (dest_dir s) _ _) as [tr3 [[] | e]] eqn:Hc;
      cbn [fst] in Hnf.
    + eexists _, true. split; [reflexivity|]. split.
      * rewrite !forallb_app, Hnf. destruct (use_zip s); [|reflexivity].
        unfold zip_events. destruct (fs_exists fs (dest_dir s ++ "_" ++ fs_stamp fs ++ ".zip")); reflexivity.
      * split; [intros _ | reflexivity]. split; [reflexivity|]. split; [left; reflexivity|].
        exists tr3. reflexivity.
    + eexists _, false. split; [reflexivity|]. split.
      * rewrite !forallb_app, Hnf. reflexivity.
      * split; [discriminate|]. intros [_ [_ [tr' H]]]. discriminate H.
  - destruct (fs_create_dir_all fs (dest_dir s)) as [e|] eqn:Hm.
    + eexists _, false. split; [reflexivity|]. split; [reflexivity|].
      split; [discriminate|]. intros [_ [[H | H] _]]; discriminate.
    + destruct (copy_recursive fs (source_dir s) (fs_tree fs) (dest_dir s) _ _) as [tr3 [[] | e]] eqn:Hc;
        cbn [fst] in Hnf.
      * eexists _, true. split; [reflexivity|]. split.
        -- rewrite !forallb_app, Hnf. destruct (use_zip s); [|reflexivity].
           unfold zip_events. destruct (fs_exists fs (dest_dir s ++ "_" ++ fs_stamp fs ++ ".zip")); reflexivity.
        -- split; [intros _ | reflexivity]. split; [reflexivity|]. split; [right; reflexivity|].
           exists tr3. reflexivity.
      * eexists _, false. split; [reflexivity|]. split.
        -- rewrite !forallb_app, Hnf. reflexivity.
        -- split; [discriminate|]. intros [_ [_ [tr' H]]]. discriminate H.
Qed.

(** *** One full [tick] *)

Lemma flat_map_only_absent (f : nat -> list Worker) (i : nat) (l : list nat) :
  ~ In i l -> flat_map (fun j => if Nat.eqb j i then f j else []) l = [].
Proof.
  induction l as [|j l IH]; intros H; [reflexivity|]. cbn [flat_map].
  rewrite IH by (intros Hx; apply H; right; exact Hx).
  destruct (Nat.eqb j i) eqn:E; [|reflexivity].
  apply Nat.eqb_eq in E. subst. exfalso. apply H. left. reflexivity.
Qed.

Lemma flat_map_only (f : nat -> list Worker) (i : nat) (l : list nat) :
  NoDup l -> In i l -> flat_map (fun j => if Nat.eqb j i then f j else []) l = f i.
Proof.
  induction l as [|j l IH]; intros Hnd Hin; [contradiction|].
  inversion Hnd as [|? ? Hni Hnd']; subst. cbn [flat_map].
  destruct (Nat.eqb j i) eqn:E.
  - apply Nat.eqb_eq in E. subst. rewrite flat_map_only_absent by exact Hni. apply app_nil_r.
  - destruct Hin as [Hji | Hin]; [subst; rewrite Nat.eqb_refl in E; discriminate|].
    apply IH; assumption.
Qed.

Lemma filter_due_workers (env : Env) (b : AppState) (i : nat) (l : list nat) :
  filter (fun w => Nat.eqb w.(w_idx) i) (flat_map (due_worker env b) l) =
  flat_map (fun j => if Nat.eqb j i then due_worker env b j else []) l.
Proof.
  induction l as [|j l IH]; [reflexivity|]. cbn [flat_map]. rewrite filter_app, IH. f_equal.
  unfold due_worker. destruct (nth_error (schedules b) j); [|destruct (Nat.eqb j i); reflexivity].
  destruct (is_due (env_now env) s); [|destruct (Nat.eqb j i); reflexivity].
  cbn [filter w_idx]. destruct (Nat.eqb j i); reflexivity.
Qed.

(** X17: a job whose completion is drained in a tick that also scans is
    started again by that same scan exactly when its period is 0 or negative
    (the drain has just set [last_time] to now, so zero whole hours have
    elapsed); a job with a period of at least one hour is never restarted by
    the tick that reports its completion. *)
Theorem tick_relaunch_after_finish (env : Env) (q : list AppMsg) (a : AppState) (i : nat)
    (s : Schedule) :
  finishes i q = true -> nth_error a.(schedules) i = Some s ->
  filter (fun w => Nat.eqb w.(w_idx) i) (snd (tick env true q a)) =
  if s.(period_hours) <=? 0
  then [mkWorker (set_running true (finish_job env.(env_now) s)) i] else [].
Proof.
  intros Hf Hn. unfold tick, scan.
  set (b := drain env q a).
  destruct (drain_schedules_spec env q a) as [Hl Hnth]. fold b in Hl, Hnth.
  destruct (scan_loop_spec env (seq 0 (length (schedules b))) b (seq_NoDup _ _)) as [Hw _].
  rewrite Hw, filter_due_workers, flat_map_only.
  - unfold due_worker. rewrite Hnth, Hf, Hn. cbn [option_map].
    unfold is_due, finish_job, elapsed_hours. cbn [is_running set_last_time set_running last_time period_hours].
    rewrite Z.sub_diag. reflexivity.
  - apply seq_NoDup.
  - apply in_seq. split; [lia|]. rewrite Hl. apply nth_error_Some. congruence.
Qed.

Lemma tick_relaunch_after_finish_witness :
  filter (fun w => Nat.eqb w.(w_idx) 0) (snd (tick env0 true [BackupFinished 0 true]
    (set_schedules [Schedule_new env0 0 "/src" "/dst" 0 "" "" false] app0))) =
  [mkWorker (set_running true (finish_job 0 (Schedule_new env0 0 "/src" "/dst" 0 "" "" false))) 0].
Proof.
  exact (tick_relaunch_after_finish env0 [BackupFinished 0 true]
           (set_schedules [Schedule_new env0 0 "/src" "/dst" 0 "" "" false] app0) 0 _ eq_refl eq_refl).
Defined.

(** *** The selection stays on a row *)

Lemma sel_ok_same (a b : AppState) :
  b.(selected_index) = a.(selected_index) -> length b.(schedules) = length a.(schedules) ->
  sel_ok a -> sel_ok b.
Proof. unfold sel_ok. intros -> ->. exact (fun H => H). Qed.

Lemma sel_ok_add (env : Env) (a : AppState) : sel_ok a -> sel_ok (action_add env a).
Proof.
  intros H. unfold action_add.
  destruct (RStr.is_empty (RStr.trim (input_source_dir a))); [exact H|].
  destruct (negb (env_exists env (input_source_dir a))); [exact H|].
  destruct (RStr.is_empty (RStr.trim (input_dest_dir a))); [exact H|].
  unfold ensure_dest.
  destruct (env_exists env (input_dest_dir a));
    [|destruct (env_create_dir_all env (input_dest_dir a)); [exact H|]].
  all: unfold sel_ok; cbn [clear_inputs save_data set_ini set_selected set_next_id set_schedules
                           selected_index schedules]; rewrite length_app; cbn [length]; lia.
Qed.

Lemma sel_ok_edit (env : Env) (a a' : AppState) :
  sel_ok a -> action_edit env a = Some a' -> sel_ok a'.
Proof.
  intros H. unfold action_edit.
  destruct (selected_index a) as [idx|] eqn:Hsel; [|intros E; injection E as <-; exact H].
  destruct (_ || _)%bool; [intros E; injection E as <-; exact H|].
  destruct (RStr.is_empty (RStr.trim (input_dest_dir a))); [intros E; injection E as <-; exact H|].
  destruct (ensure_dest env a) as [a1|] eqn:Hd.
  { intros E; injection E as <-. unfold ensure_dest in Hd.
    destruct (env_exists env (input_dest_dir a)); [discriminate|].
    destruct (env_create_dir_all env (input_dest_dir a)); [|discriminate].
    injection Hd as <-. exact H. }
  destruct (nth_error (schedules a) idx) as [s|] eqn:Hn; [|discriminate].
  intros E; injection E as <-. unfold sel_ok in *.
  change (match selected_index a with Some i => (i < length (firstn idx (schedules a) ++
    set_config (input_source_dir a) (input_dest_dir a) (input_period a) (label_skip_files a)
      (label_skip_folders a) (input_use_zip a) s :: skipn (S idx) (schedules a))%list)%nat
    | None => True end). rewrite Hsel.
  rewrite (firstn_skipn_update idx (fun _ => set_config (input_source_dir a) (input_dest_dir a)
            (input_period a) (label_skip_files a) (label_skip_folders a) (input_use_zip a) s)
            (schedules a) s Hn), length_update_nth.
  rewrite Hsel in H. exact H.
Qed.

Lemma sel_ok_delete (env : Env) (a : AppState) : sel_ok a -> sel_ok (action_delete env a).
Proof.
  intros H. unfold action_delete.
  destruct (selected_index a) as [idx|] eqn:Hsel; [|exact H].
  destruct (Nat.ltb idx (length (schedules a))); [exact I | exact H].
Qed.

Lemma sel_ok_spawn (env : Env) (idx : nat) (a : AppState) : sel_ok a -> sel_ok (fst (spawn_backup env idx a)).
Proof.
  apply sel_ok_same.
  - unfold spawn_backup. destruct (nth_error (schedules a) idx); reflexivity.
  - rewrite spawn_backup_schedules. apply length_update_nth.
Qed.

Lemma sel_ok_run_now (env : Env) (a : AppState) : sel_ok a -> sel_ok (fst (action_run_now env a)).
Proof.
  intros H. unfold action_run_now.
  destruct (selected_index a) as [idx|]; [|exact H].
  destruct (nth_error (schedules a) idx) as [s|]; [|exact H].
  destruct (is_running s); [exact H|]. apply sel_ok_spawn. exact H.
Qed.

Lemma sel_ok_scan_loop (env : Env) (idxs : list nat) (a : AppState) :
  sel_ok a -> sel_ok (fst (scan_loop env idxs a)).
Proof.
  revert a; induction idxs as [|i rest IH]; intros a H; [exact H|]. cbn [scan_loop].
  destruct (match nth_error (schedules a) i with Some s => is_due (env_now env) s | None => false end).
  - pose proof (sel_ok_spawn env i a H) as H1.
    destruct (spawn_backup env i a) as [a1 w1]. cbn [fst] in H1.
    specialize (IH a1 H1). destruct (scan_loop env rest a1) as [a2 w2]. exact IH.
  - specialize (IH a H). destruct (scan_loop env rest a) as [a2 w2]. exact IH.
Qed.

Lemma sel_ok_drain (env : Env) (q : list AppMsg) (a : AppState) : sel_ok a -> sel_ok (drain env q a).
Proof.
  unfold drain. revert a; induction q as [|m q IH]; intros a H; [exact H|].
  cbn [fold_left]. apply IH. apply (sel_ok_same a); [destruct m; reflexivity| |exact H].
  destruct m; cbn [handle_msg log set_logs set_schedules schedules]; [reflexivity|].
  apply length_update_nth.
Qed.

Lemma sel_ok_reachable (st : Sys) : reachable any_action st -> sel_ok st.(app).
Proof.
  induction 1 as [env ini | act st st' Hr IH Ha Hs].
  - cbn [sys_init app]. unfold app_default, load_data. cbn [ini_file].
    destruct ini as [content|]; [|exact I].
    destruct (RStr.read_line content) as [title rest].
    destruct (RStr.read_line rest) as [count_line rest'].
    destruct (load_records_spec env (unwrap_or (Num.parse_usize (RStr.trim count_line)) 0%nat) rest'
                (mkAppState [] None "" (default_backup_root env) "24" "" "" "" "" false [] (Some content) 0))
      as [l [_ [_ [_ [_ Hsel]]]]].
    unfold sel_ok. cbn [log set_logs selected_index]. rewrite Hsel. exact I.
  - destruct Hs as [a ws q src dst per exts folders z | a ws q i Hi | env a ws q
                   | env a a' ws q He | env a ws q | env a ws q | env b a ws q
                   | a ws q k w m Hk | a ws q k w ok Hk]; cbn [app] in *.
    + exact IH.
    + unfold sel_ok, select_row. destruct (nth_error (schedules a) i); exact Hi.
    + apply sel_ok_add. exact IH.
    + apply (sel_ok_edit env a); assumption.
    + apply sel_ok_delete. exact IH.
    + apply sel_ok_run_now. exact IH.
    + unfold tick. apply (sel_ok_drain env q) in IH.
      destruct b; [apply sel_ok_scan_loop; exact IH | exact IH].
    + exact IH.
    + exact IH.
Qed.

(** X18: in every state the running program can reach, the selection is
    empty or names an existing row, so "Edit" never reaches its out-of-range
    indexing [self.schedules[idx]] (which would panic): it always yields a
    new state. *)
Theorem edit_never_panics (st : Sys) :
  reachable any_action st ->
  sel_ok st.(app) /\ forall env, action_edit env st.(app) <> None.
Proof.
  intros Hr. pose proof (sel_ok_reachable st Hr) as H. split; [exact H|].
  intros env. unfold action_edit, sel_ok in *.
  destruct (selected_index (app st)) as [idx|]; [|discriminate].
  destruct (_ || _)%bool; [discriminate|].
  destruct (RStr.is_empty _); [discriminate|].
  destruct (ensure_dest env (app st)); [discriminate|].
  destruct (nth_error (schedules (app st)) idx) eqn:E; [discriminate|].
  apply nth_error_None in E. lia.
Qed.

Lemma edit_never_panics_witness :
  exists st, reachable any_action st /\
    st.(app).(selected_index) = Some 0%nat /\ length st.(app).(schedules) = 1%nat /\
    st.(app).(input_source_dir) = "/data" /\ st.(app).(input_dest_dir) = "/data" /\
    st.(app).(input_period_hours) = "12" /\
    (sel_ok st.(app) /\ forall env, action_edit env st.(app) <> None).
Proof.
  (* one job added from the input bar (it becomes the selected row 0),
     then the inputs filled in again for editing it *)
  eassert (R1 : reachable any_action _).
  { refine (ReachStep _ AInputs _ _ (ReachInit any_action env0 None) eq_refl _).
    apply (StInputs _ _ _ "/data" "/data" "24" "" "" false). }
  eassert (R2 : reachable any_action _).
  { refine (ReachStep _ AAdd _ _ R1 eq_refl _). apply (StAdd env0). }
  eassert (R3 : reachable any_action _).
  { refine (ReachStep _ AInputs _ _ R2 eq_refl _).
    apply (StInputs _ _ _ "/data" "/data" "12" "" "" false). }
  eexists. split; [exact R3|].
  split; [vm_compute; reflexivity|]. split; [vm_compute; reflexivity|].
  split; [reflexivity|]. split; [reflexivity|]. split; [reflexivity|].
  exact (edit_never_panics _ R3).
Defined.

(** *** Forms of an extension token *)

Lemma tsm_no_prefix (pat e : string) :
  String.prefix pat e = false -> RStr.trim_start_matches pat e = e.
Proof.
  intros H. unfold RStr.trim_start_matches. rewrite tsm_aux_step, H, andb_false_r. reflexivity.
Qed.

Lemma parse_skip_tokens_single (t : string) :
  t <> EmptyString -> no_ws t = true ->
  parse_skip_tokens t =
  [RStr.to_ascii_lowercase (RStr.trim_start_matches "." (RStr.trim_start_matches "*." t))].
Proof.
  intros Hne Hws. unfold parse_skip_tokens.
  rewrite (split_ws_single t Hne Hws). cbn [map]. rewrite (trim_no_ws t Hws).
  cbn [filter]. destruct (RStr.is_empty t) eqn:E; [exfalso; exact (Hne (is_empty_true t E))|].
  reflexivity.
Qed.

(** X19: in the skip-extension list the forms [ext], [.ext] and [*.ext] of a
    token (with [ext] free of whitespace and not itself starting with [.] or
    [*.]) all mean the same single extension, [ext] in lower case. *)
Theorem skip_token_forms (e : string) :
  e <> EmptyString -> no_ws e = true ->
  String.prefix "." e = false -> String.prefix "*." e = false ->
  parse_skip_tokens e = [RStr.to_ascii_lowercase e] /\
  parse_skip_tokens ("." ++ e) = [RStr.to_ascii_lowercase e] /\
  parse_skip_tokens ("*." ++ e) = [RStr.to_ascii_lowercase e].
Proof.
  intros Hne Hws Hd Hs.
  assert (H1 : parse_skip_tokens e = [RStr.to_ascii_lowercase e]).
  { rewrite parse_skip_tokens_single by assumption.
    rewrite (tsm_no_prefix "*." e Hs), (tsm_no_prefix "." e Hd). reflexivity. }
  split; [exact H1|]. split.
  - rewrite parse_skip_tokens_single by (try discriminate; exact Hws).
    rewrite (tsm_no_prefix "*." ("." ++ e)) by reflexivity.
    rewrite (tsm_prefix "." e) by discriminate. rewrite (tsm_no_prefix "." e Hd). reflexivity.
  - rewrite parse_skip_tokens_star by assumption. exact H1.
Qed.

Lemma skip_token_forms_witness :
  parse_skip_tokens "*.Log" = ["log"] /\ parse_skip_tokens ".Log" = ["log"].
Proof.
  destruct (skip_token_forms "Log" ltac:(discriminate) eq_refl eq_refl eq_refl) as [_ [H2 H3]].
  split; [exact H3 | exact H2].
Defined.

(** *** Completion after a deletion *)

(** C10: the thread launched for the job at [idx] reports its completion
    with the launch-time index [idx] only.  When a job at a smaller index [k]
    is deleted between the launch and the completion, the launched job moves
    to [idx - 1] and the completion does not reach it: it stays marked
    running.  The completion instead marks idle, with the new [last_time],
    the job that has moved into [idx] (the one that was at [idx + 1] at
    launch), or changes no job at all when there is none; every other index
    is left as the deletion made it. *)
Theorem completion_applies_by_index (env : Env) (a : AppState) (idx k : nat)
    (s : Schedule) (ok : bool) :
  nth_error a.(schedules) idx = Some s -> (k < idx)%nat ->
  let a1 := fst (spawn_backup env idx a) in
  let b := action_delete env (set_selected (Some k) a1) in
  let c := handle_msg env b (BackupFinished idx ok) in
  snd (spawn_backup env idx a) = [mkWorker (set_running true s) idx] /\
  nth_error c.(schedules) (pred idx) = Some (set_running true s) /\
  nth_error c.(schedules) idx =
    option_map (finish_job env.(env_now)) (nth_error a.(schedules) (S idx)) /\
  (nth_error a.(schedules) (S idx) = None -> c.(schedules) = b.(schedules)) /\
  (forall j, j <> idx -> nth_error c.(schedules) j = nth_error b.(schedules) j).
Proof.
  intros Hs Hk a1 b c.
  assert (Hlen : (idx < length a.(schedules))%nat).
  { apply nth_error_Some. rewrite Hs. discriminate. }
  set (u := update_nth idx (set_running true) a.(schedules)).
  assert (Hu : length u = length a.(schedules)) by apply length_update_nth.
  assert (Hb : b.(schedules) = remove_at k u).
  { unfold b, action_delete. cbn [selected_index set_selected].
    change (schedules (set_selected (Some k) a1)) with (schedules a1).
    unfold a1. rewrite spawn_backup_schedules. fold u.
    replace (Nat.ltb k (length u)) with true by (symmetry; apply Nat.ltb_lt; lia).
    reflexivity. }
  assert (Hc : c.(schedules) = update_nth idx (finish_job env.(env_now)) b.(schedules))
    by reflexivity.
  assert (Hbn : forall j, nth_error b.(schedules) j =
                          nth_error u (if Nat.ltb j k then j else S j)).
  { intros j. rewrite Hb. apply nth_error_remove_at. lia. }
  split; [apply spawn_backup_workers; exact Hs|].
  split; [|split; [|split]].
  - rewrite Hc, nth_error_update_nth.
    replace (Nat.eqb idx (pred idx)) with false by (symmetry; apply Nat.eqb_neq; lia).
    rewrite Hbn. replace (Nat.ltb (pred idx) k) with false by (symmetry; apply Nat.ltb_ge; lia).
    replace (S (pred idx)) with idx by lia.
    unfold u. rewrite nth_error_update_nth, Nat.eqb_refl, Hs. reflexivity.
  - rewrite Hc, nth_error_update_nth, Nat.eqb_refl, Hbn.
    replace (Nat.ltb idx k) with false by (symmetry; apply Nat.ltb_ge; lia).
    unfold u. rewrite nth_error_update_nth.
    replace (Nat.eqb idx (S idx)) with false by (symmetry; apply Nat.eqb_neq; lia).
    reflexivity.
  - intros Hn. rewrite Hc. apply update_nth_none. rewrite Hbn.
    replace (Nat.ltb idx k) with false by (symmetry; apply Nat.ltb_ge; lia).
    unfold u. rewrite nth_error_update_nth.
    replace (Nat.eqb idx (S idx)) with false by (symmetry; apply Nat.eqb_neq; lia).
    exact Hn.
  - intros j Hj. rewrite Hc, nth_error_update_nth.
    replace (Nat.eqb idx j) with false by (symmetry; apply Nat.eqb_neq; lia).
    reflexivity.
Qed.

Lemma completion_applies_by_index_witness :
  let s := Schedule_new env0 1 "/a" "/b" 1 "" "" true in
  nth_error app3.(schedules) 1 = Some s /\ (0 < 1)%nat /\
  let a1 := fst (spawn_backup env0 1 app3) in
  let b := action_delete env0 (set_selected (Some 0%nat) a1) in
  let c := handle_msg env0 b (BackupFinished 1 true) in
  snd (spawn_backup env0 1 app3) = [mkWorker (set_running true s) 1] /\
  nth_error c.(schedules) (pred 1) = Some (set_running true s) /\
  nth_error c.(schedules) 1 =
    option_map (finish_job env0.(env_now)) (nth_error app3.(schedules) 2) /\
  (nth_error app3.(schedules) 2 = None -> c.(schedules) = b.(schedules)) /\
  (forall j, j <> 1%nat -> nth_error c.(schedules) j = nth_error b.(schedules) j).
Proof.
  intros s. split; [reflexivity | split; [lia |]].
  apply (completion_applies_by_index env0 app3 1 0 s true); [reflexivity | lia].
Defined.
